(** * optemcee.run_mcmc: driving a tempered ensemble sampler

    A shallow embedding of [topics/evidence-calculation/optemcee.py].
    The file holds one function, [run_mcmc], which allocates three dense
    arrays with [np.zeros], opens a [tqdm] progress bar, iterates
    [sampler.sample(p0, thin_by=thin)], stores each result in the slot
    [index] of the three arrays and leaves the loop once [index >= nsteps].

    The model keeps what the function can observe or cause:
    - NumPy arrays as a shape and a row-major buffer of binary64 values;
    - Python exceptions as an error outcome;
    - the sampler as an object whose attributes may be missing and whose
      [sample] method gives an iterator, driven by [next];
    - the calls that leave the function ([np.zeros], [tqdm], [sample],
      [next], [pbar.update], [pbar.close]) as a chronological trace. *)

From Stdlib Require Import String.
From Stdlib Require Import List ZArith Lia Bool Arith.
From Stdlib Require Import Floats.PrimFloat.
Import ListNotations.

Local Open Scope Z_scope.

(** ** Exceptions and outcomes *)

Inductive exn : Type :=
| AttributeError (attr : string)
| ValueError (msg : string)
| IndexError (msg : string)
| Exception (msg : string).

(** What a NumPy operation or a method of the sampler gives: a value
    or an exception. *)
Inductive result (A : Type) : Type :=
| Ok (a : A)
| Err (e : exn).

Arguments Ok {A} a.
Arguments Err {A} e.

(** How a run of [run_mcmc] ends: it returns, it lets an exception
    out, or the model has used up its fuel. *)
Inductive outcome (A : Type) : Type :=
| Returns (a : A)
| Raises (e : exn)
| OutOfFuel.

Arguments Returns {A} a.
Arguments Raises {A} e.
Arguments OutOfFuel {A}.

(** ** NumPy arrays *)

Module Np.

(** A dense array of [float64]: its shape and its buffer in row-major
    (C) order. *)
Record ndarray : Type := mk_ndarray {
  shape : list nat;
  data : list float
}.

Definition prod (sh : list nat) : nat := fold_right Nat.mul 1%nat sh.

(** The buffer has as many elements as the shape says. *)
Definition wf (a : ndarray) : Prop := length (data a) = prod (shape a).

(** [np.size(a)]. *)
Definition size (a : ndarray) : Z := Z.of_nat (prod (shape a)).

(** [np.zeros(dims)] on a tuple of Python integers: NumPy refuses a
    negative dimension with a [ValueError].  NumPy also refuses an
    array whose size in bytes does not fit a C integer, and fails when
    the memory is not there; these two refusals depend on the machine
    and are left out, so what is proved of allocated arrays is proved
    of runs in which NumPy can allocate them. *)
Definition zeros (dims : list Z) : result ndarray :=
  if existsb (fun d => d <? 0) dims
  then Err (ValueError "negative dimensions are not allowed")
  else let sh := map Z.to_nat dims in
       Ok (mk_ndarray sh (repeat 0%float (prod sh))).

(** [chunks sz n d]: the first [n] consecutive blocks of [sz] elements
    of [d]. *)
Fixpoint chunks (sz n : nat) (d : list float) : list (list float) :=
  match n with
  | O => []
  | S n' => firstn sz d :: chunks sz n' (skipn sz d)
  end.

Fixpoint sequence_opt {A} (l : list (option A)) : option (list A) :=
  match l with
  | [] => Some []
  | None :: _ => None
  | Some a :: l' =>
      match sequence_opt l' with
      | Some r => Some (a :: r)
      | None => None
      end
  end.

(** Two shapes of one rank are compatible when, along each axis, the
    extents agree or the extent of the source is 1. *)
Fixpoint compatible (src tgt : list nat) : bool :=
  match src, tgt with
  | [], [] => true
  | s :: src', t :: tgt' =>
      ((s =? t)%nat || (s =? 1)%nat) && compatible src' tgt'
  | _, _ => false
  end.

(** Broadcasting of a buffer of shape [src] to the shape [tgt] of the
    same rank: along each axis the extents agree, or the source extent
    is 1 and its block is repeated.  The remaining axes are compared
    also when an extent is 0 and there is no block to copy. *)
Fixpoint bcast (src tgt : list nat) (d : list float) : option (list float) :=
  match src, tgt with
  | [], [] => Some d
  | s :: src', t :: tgt' =>
      if (s =? t)%nat then
        if compatible src' tgt' then
          option_map (@concat float)
            (sequence_opt (map (bcast src' tgt') (chunks (prod src') s d)))
        else None
      else if (s =? 1)%nat then
        option_map (fun b => concat (repeat b t)) (bcast src' tgt' d)
      else None
  | _, _ => None
  end.

(** Leading axes of extent 1 that the value has beyond the rank of the
    target are dropped by an assignment. *)
Fixpoint strip_ones (k : nat) (sh : list nat) : option (list nat) :=
  match k with
  | O => Some sh
  | S k' =>
      match sh with
      | 1%nat :: sh' => strip_ones k' sh'
      | _ => None
      end
  end.

(** The value's shape brought to the rank of the target: padded with
    leading ones when shorter, stripped of leading ones when longer. *)
Definition align (src tgt : list nat) : option (list nat) :=
  if (length src <=? length tgt)%nat
  then Some (repeat 1%nat (length tgt - length src) ++ src)
  else strip_ones (length src - length tgt) src.

Definition broadcast_to (v : ndarray) (tgt : list nat) : option (list float) :=
  match align (shape v) tgt with
  | Some src => bcast src tgt (data v)
  | None => None
  end.

(** [splice d off blk]: the buffer [d] with the block [blk] written at
    offset [off]. *)
Definition splice (d : list float) (off : nat) (blk : list float) : list float :=
  firstn off d ++ blk ++ skipn (off + length blk) d.

(** The array [a] with the buffer [blk] in slot [i] of its first axis. *)
Definition put_slot (a : ndarray) (i : nat) (blk : list float) : ndarray :=
  mk_ndarray (shape a) (splice (data a) (i * prod (tl (shape a))) blk).

(** [a[i]] as a flat buffer: slot [i] of the first axis. *)
Definition get_slot (a : ndarray) (i : nat) : list float :=
  let sz := prod (tl (shape a)) in
  firstn sz (skipn (i * sz) (data a)).

(** [a[index, :, ..., :] = v] with one slice per remaining axis: the
    index is checked against the first axis (a negative index counts
    from the end), then [v] is broadcast to the shape of the slot. *)
Definition setitem (a : ndarray) (index : Z) (v : ndarray) : result ndarray :=
  match shape a with
  | [] => Err (IndexError "too many indices for array")
  | n :: sub =>
      if (index <? - Z.of_nat n) || (Z.of_nat n <=? index)
      then Err (IndexError "index is out of bounds for axis 0")
      else
        let i := Z.to_nat (if index <? 0 then index + Z.of_nat n else index) in
        match broadcast_to v sub with
        | None => Err (ValueError "could not broadcast input array")
        | Some blk => Ok (put_slot a i blk)
        end
  end.

End Np.

Import Np.

(** ** The sampler *)

(** What one step of the sampler yields: [result.x], [result.logl] and
    [result.logP]. *)
Record StepResult : Type := mk_result {
  x : ndarray;
  logl : ndarray;
  logP : ndarray
}.

(** What [next] on the iterator of [sampler.sample] does: it yields a
    result and moves on, ends the iteration, or raises. *)
Inductive pull (G : Type) : Type :=
| PYield (r : StepResult) (g : G)
| PStop
| PRaise (e : exn).

Arguments PYield {G} r g.
Arguments PStop {G}.
Arguments PRaise {G} e.

(** The sampler object.  An attribute that the object does not have is
    [None]; [ntemps] is an attribute that samplers carry and that
    [run_mcmc] never reads.  [sample p0 thin] is the call
    [sampler.sample(p0, thin_by=thin)], which may raise before it gives
    an iterator. *)
Record Sampler : Type := mk_sampler {
  betas : option ndarray;
  ntemps : option Z;
  nwalkers : option Z;
  ndim : option Z;
  gen : Type;
  sample : ndarray -> Z -> result gen;
  next : gen -> pull gen
}.

(** ** Trace of the calls made by [run_mcmc] *)

Inductive pulled : Type :=
| Yielded (r : StepResult)
| Exhausted
| Failed (e : exn).

Inductive event : Type :=
| EvZeros (dims : list Z)             (* np.zeros(dims) gave an array *)
| EvTqdm (total : Z)                  (* pbar = tqdm(total=total) *)
| EvSample (p0 : ndarray) (thin : Z)  (* sampler.sample(p0, thin_by=thin) *)
| EvNext (o : pulled)                 (* next() on the iterator, and what it did *)
| EvUpdate (n : Z)                    (* pbar.update(n) *)
| EvClose.                            (* pbar.close() *)

(** ** A trace-and-exception monad *)

Definition M (A : Type) : Type := (list event * outcome A)%type.

Definition ret {A} (a : A) : M A := ([], Returns a).

Definition bind {A B} (m : M A) (f : A -> M B) : M B :=
  match m with
  | (l, Returns a) => let (l', o) := f a in (l ++ l', o)
  | (l, Raises e) => (l, Raises e)
  | (l, OutOfFuel) => (l, OutOfFuel)
  end.

Definition emit (e : event) : M unit := ([e], Returns tt).
Definition throw {A} (e : exn) : M A := ([], Raises e).
Definition out_of_fuel {A} : M A := ([], OutOfFuel).

Definition lift {A} (r : result A) : M A :=
  match r with
  | Ok a => ret a
  | Err e => throw e
  end.

Notation "x <- m ;; k" := (bind m (fun x => k))
  (at level 61, m at next level, right associativity).
Notation "m ;;; k" := (bind m (fun _ => k))
  (at level 61, right associativity).

(** [obj.attr] on an object that may lack the attribute. *)
Definition getattr {A} (name : string) (v : option A) : M A :=
  match v with
  | Some a => ret a
  | None => throw (AttributeError name)
  end.

Definition np_zeros (dims : list Z) : M ndarray :=
  a <- lift (zeros dims) ;;
  emit (EvZeros dims) ;;;
  ret a.

Definition call_sample (s : Sampler) (p0 : ndarray) (thin : Z) : M (gen s) :=
  emit (EvSample p0 thin) ;;;
  lift (sample s p0 thin).

(** ** run_mcmc *)

Definition arrays : Type := (ndarray * ndarray * ndarray)%type.

(** The [for result in ...:] loop, from the state it has before one
    call of [next].  [fuel] bounds the number of calls of [next]. *)
Fixpoint for_loop {G} (next : G -> pull G) (fuel : nat) (g : G)
    (nsteps index : Z) (chain logl_ logpi : ndarray) : M arrays :=
  match fuel with
  | O => out_of_fuel
  | S fuel' =>
      match next g with
      | PStop =>
          emit (EvNext Exhausted) ;;;
          ret (chain, logl_, logpi)
      | PRaise e =>
          emit (EvNext (Failed e)) ;;;
          throw e
      | PYield result g' =>
          emit (EvNext (Yielded result)) ;;;
          chain' <- lift (setitem chain index (x result)) ;;
          logl' <- lift (setitem logl_ index (logl result)) ;;
          logpi' <- lift (setitem logpi index (logP result)) ;;
          let index' := index + 1 in
          emit (EvUpdate 1) ;;;
          if index' >=? nsteps
          then ret (chain', logl', logpi')
          else for_loop next fuel' g' nsteps index' chain' logl' logpi'
      end
  end.

(** The body of [run_mcmc], statement by statement.  The tuple given
    to the first [np.zeros] reads [sampler.nwalkers] and [sampler.ndim]
    before the call; the later reads of [sampler.nwalkers] give the
    same value and are not repeated here.  The local array [logl] is
    written [logl_], [logl] being the field of a result. *)
Definition run_mcmc_fuel (fuel : nat) (sampler : Sampler) (p0 : ndarray)
    (nsteps thin : Z) : M arrays :=
  b <- getattr "betas" (betas sampler) ;;
  let ntemps := size b in
  nw <- getattr "nwalkers" (nwalkers sampler) ;;
  nd <- getattr "ndim" (ndim sampler) ;;
  chain <- np_zeros [nsteps; ntemps; nw; nd] ;;
  emit (EvTqdm nsteps) ;;;
  let index := 0 in
  logl_ <- np_zeros [nsteps; ntemps; nw] ;;
  logpi <- np_zeros [nsteps; ntemps; nw] ;;
  g <- call_sample sampler p0 thin ;;
  r <- for_loop (next sampler) fuel g nsteps index chain logl_ logpi ;;
  emit EvClose ;;;
  ret r.

(** The loop calls [next] at most [max 1 nsteps] times, so this much
    fuel never runs out ([run_mcmc_total]) and more of it changes
    nothing ([run_mcmc_fuel_enough]). *)
Definition run_mcmc (sampler : Sampler) (p0 : ndarray) (nsteps thin : Z) : M arrays :=
  run_mcmc_fuel (S (Z.to_nat nsteps)) sampler p0 nsteps thin.

(** [thin=1] is the default of the keyword argument. *)
Definition run_mcmc_default (sampler : Sampler) (p0 : ndarray) (nsteps : Z) : M arrays :=
  run_mcmc sampler p0 nsteps 1.

(** ** Reading the trace *)

(** The arguments of the calls of [sampler.sample], in order. *)
Fixpoint sample_calls (log : list event) : list (ndarray * Z) :=
  match log with
  | [] => []
  | EvSample p t :: l => (p, t) :: sample_calls l
  | _ :: l => sample_calls l
  end.

(** The results that the iterator yielded, in order. *)
Fixpoint yielded (log : list event) : list StepResult :=
  match log with
  | [] => []
  | EvNext (Yielded r) :: l => r :: yielded l
  | _ :: l => yielded l
  end.

(** The number of calls of [next]. *)
Fixpoint pulls (log : list event) : nat :=
  match log with
  | [] => O
  | EvNext _ :: l => S (pulls l)
  | _ :: l => pulls l
  end.

(** The number of arrays that [np.zeros] gave. *)
Fixpoint allocations (log : list event) : nat :=
  match log with
  | [] => O
  | EvZeros _ :: l => S (allocations l)
  | _ :: l => allocations l
  end.

(** Whether a progress bar is open after the calls of [log], given
    whether one was open before. *)
Fixpoint pbar_state (open : bool) (log : list event) : bool :=
  match log with
  | [] => open
  | EvTqdm _ :: l => pbar_state true l
  | EvClose :: l => pbar_state false l
  | _ :: l => pbar_state open l
  end.

Definition pbar_left_open (log : list event) : bool := pbar_state false log.

(** ** Specification-side helpers *)

(** The three assignments of the loop body, in the order of the source. *)
Definition store (index : Z) (r : StepResult) (a : arrays) : result arrays :=
  let '(chain, logl_, logpi) := a in
  match setitem chain index (x r) with
  | Err e => Err e
  | Ok chain' =>
      match setitem logl_ index (logl r) with
      | Err e => Err e
      | Ok logl' =>
          match setitem logpi index (logP r) with
          | Err e => Err e
          | Ok logpi' => Ok (chain', logl', logpi')
          end
      end
  end.

(** [yields next g rs g']: from the state [g], the iterator yields the
    results [rs] one after the other and is then in the state [g']. *)
Inductive yields {G} (next : G -> pull G) : G -> list StepResult -> G -> Prop :=
| yields_nil g : yields next g [] g
| yields_cons g r g1 rs g2 :
    next g = PYield r g1 -> yields next g1 rs g2 ->
    yields next g (r :: rs) g2.

(** The shape of an array as Python integers. *)
Definition shapeZ (a : ndarray) : list Z := map Z.of_nat (shape a).

(** A result whose arrays have exactly the shapes of one slot of the
    three output arrays. *)
Definition conforms (nt nw nd : Z) (r : StepResult) : Prop :=
  wf (x r) /\ wf (logl r) /\ wf (logP r) /\
  shapeZ (x r) = [nt; nw; nd] /\
  shapeZ (logl r) = [nt; nw] /\
  shapeZ (logP r) = [nt; nw].

(** The calls made before the loop, when the allocations succeed. *)
Definition prelude (nsteps nt nw nd : Z) (p0 : ndarray) (thin : Z) : list event :=
  [EvZeros [nsteps; nt; nw; nd]; EvTqdm nsteps;
   EvZeros [nsteps; nt; nw]; EvZeros [nsteps; nt; nw];
   EvSample p0 thin].

(** The sampler [s] with its [ntemps] attribute replaced. *)
Definition with_ntemps (v : option Z) (s : Sampler) : Sampler :=
  mk_sampler (betas s) v (nwalkers s) (ndim s) (gen s) (sample s) (next s).

(** The array [a] after the results [rs] were stored, field [sel] of
    each, in consecutive slots from [index]. *)
Fixpoint fill (sel : StepResult -> ndarray) (rs : list StepResult)
    (index : nat) (a : ndarray) : ndarray :=
  match rs with
  | [] => a
  | r :: rs' => fill sel rs' (S index) (put_slot a index (data (sel r)))
  end.

(** The trace of iterations that store and go on. *)
Definition stored (rs : list StepResult) : list event :=
  flat_map (fun r => [EvNext (Yielded r); EvUpdate 1]) rs.

(** The three output arrays, well formed and of the shapes that
    [run_mcmc] allocates. *)
Definition slots_ok (nsteps nt nw nd : Z) (c l p : ndarray) : Prop :=
  wf c /\ wf l /\ wf p /\
  shapeZ c = [nsteps; nt; nw; nd] /\
  shapeZ l = [nsteps; nt; nw] /\
  shapeZ p = [nsteps; nt; nw].

(** What [np.zeros] gives for the chain and for the two other arrays
    when no extent is negative. *)
Definition chain0 (nsteps : Z) (b : ndarray) (nw nd : Z) : ndarray :=
  mk_ndarray (map Z.to_nat [nsteps; size b; nw; nd])
             (repeat 0%float (prod (map Z.to_nat [nsteps; size b; nw; nd]))).

Definition logs0 (nsteps : Z) (b : ndarray) (nw : Z) : ndarray :=
  mk_ndarray (map Z.to_nat [nsteps; size b; nw])
             (repeat 0%float (prod (map Z.to_nat [nsteps; size b; nw]))).

(** The number of elements of one slot of the chain, and of one slot
    of the two other arrays. *)
Definition chain_slot (b : ndarray) (nw nd : Z) : nat :=
  prod (map Z.to_nat [size b; nw; nd]).

Definition logs_slot (b : ndarray) (nw : Z) : nat :=
  prod (map Z.to_nat [size b; nw]).

(** ** Stub samplers

    Samplers with one temperature per entry of [betas], whose iterator
    counts the results it has yielded.  Result number [k] (from 0) is
    filled with the value [k + 1], so the results are all different. *)

Module Stub.

Fixpoint float_of_nat (n : nat) : float :=
  match n with
  | O => 0%float
  | S n' => (float_of_nat n' + 1)%float
  end.

Definition full (sh : list nat) (v : float) : ndarray :=
  mk_ndarray sh (repeat v (prod sh)).

(** Result number [k] for a sampler of [nt] temperatures, [nw] walkers
    and [nd] dimensions. *)
Definition result_of (nt nw nd k : nat) : StepResult :=
  mk_result (full [nt; nw; nd] (float_of_nat (S k)))
            (full [nt; nw] (- float_of_nat (S k))%float)
            (full [nt; nw] (float_of_nat (S k) / 2)%float).

(** How the iterator ends once it has yielded [len] results. *)
Inductive ending : Type :=
| Forever                   (* it never ends *)
| StopAfter (len : nat)     (* StopIteration after [len] results *)
| FailAfter (len : nat) (e : exn).  (* raises [e] instead of result [len] *)

Definition stub_next (nt nw nd : nat) (fin : ending) (k : nat) : pull nat :=
  match fin with
  | Forever => PYield (result_of nt nw nd k) (S k)
  | StopAfter len =>
      if (k <? len)%nat then PYield (result_of nt nw nd k) (S k) else PStop
  | FailAfter len e =>
      if (k <? len)%nat then PYield (result_of nt nw nd k) (S k) else PRaise e
  end.

Definition stub (nt nw nd : nat) (fin : ending) : Sampler :=
  mk_sampler (Some (full [nt] 1%float)) (Some (Z.of_nat nt))
             (Some (Z.of_nat nw)) (Some (Z.of_nat nd))
             nat (fun _ _ => Ok O) (stub_next nt nw nd fin).

(** An initial position of [nw] walkers in [nd] dimensions. *)
Definition p0 (nw nd : nat) : ndarray := full [nw; nd] 0.5%float.

End Stub.


(** ** Further readings of the trace *)

(** The sum of the increments given to [pbar.update]. *)
Fixpoint updates (log : list event) : Z :=
  match log with
  | [] => 0
  | EvUpdate n :: l => n + updates l
  | _ :: l => updates l
  end.

(** The totals that progress bars were opened with, in order. *)
Fixpoint opened (log : list event) : list Z :=
  match log with
  | [] => []
  | EvTqdm total :: l => total :: opened l
  | _ :: l => opened l
  end.

(** Two shapes of one rank such that, along some axis, the extent of
    [src] is neither the extent of [tgt] nor 1. *)
Fixpoint mismatch (src tgt : list nat) : bool :=
  match src, tgt with
  | s :: src', t :: tgt' =>
      (negb (s =? t)%nat && negb (s =? 1)%nat) || mismatch src' tgt'
  | _, _ => false
  end.

(** ** Samplers that misbehave *)

Module Faulty.

(** A sampler of 2 temperatures, 1 walker and 2 dimensions whose
    results carry an [x] of shape (2, 1, 3). *)
Definition wide_result : StepResult :=
  mk_result (Stub.full [2; 1; 3]%nat 1%float)
            (Stub.full [2; 1]%nat 1%float)
            (Stub.full [2; 1]%nat 1%float).

Definition wide : Sampler :=
  mk_sampler (Some (Stub.full [2%nat] 1%float)) (Some 2) (Some 1) (Some 2)
             unit (fun _ _ => Ok tt) (fun _ => PYield wide_result tt).

(** A sampler of the same sizes whose [sample] method raises. *)
Definition refusing (e : exn) : Sampler :=
  mk_sampler (Some (Stub.full [2%nat] 1%float)) (Some 2) (Some 1) (Some 2)
             unit (fun _ _ => Err e) (fun _ => PStop).

End Faulty.

(** * Proofs *)

(** ** The loop and the function, case by case *)

Section Unfolding.

Context {G : Type} (next : G -> pull G).

Lemma for_loop_S (fuel : nat) (g : G) (nsteps index : Z) (c l p : ndarray) :
  for_loop next (S fuel) g nsteps index c l p =
  match next g with
  | PStop => ([EvNext Exhausted], Returns (c, l, p))
  | PRaise e => ([EvNext (Failed e)], Raises e)
  | PYield r g' =>
      match store index r (c, l, p) with
      | Err e => ([EvNext (Yielded r)], Raises e)
      | Ok (c', l', p') =>
          if index + 1 >=? nsteps
          then ([EvNext (Yielded r); EvUpdate 1], Returns (c', l', p'))
          else let (log, o) := for_loop next fuel g' nsteps (index + 1) c' l' p' in
               (EvNext (Yielded r) :: EvUpdate 1 :: log, o)
      end
  end.
Proof.
  simpl. destruct (next g) as [r g'| |e]; try reflexivity.
  unfold store.
  destruct (setitem c index (x r)) as [c'|e]; [|reflexivity].
  destruct (setitem l index (logl r)) as [l'|e]; [|reflexivity].
  destruct (setitem p index (logP r)) as [p'|e]; [|reflexivity].
  simpl. destruct (index + 1 >=? nsteps); [reflexivity|].
  destruct (for_loop next fuel g' nsteps (index + 1) c' l' p') as [log o].
  reflexivity.
Qed.

End Unfolding.

Lemma run_mcmc_fuel_eq (fuel : nat) (s : Sampler) (p0 : ndarray) (nsteps thin : Z) :
  run_mcmc_fuel fuel s p0 nsteps thin =
  match betas s with
  | None => ([], Raises (AttributeError "betas"))
  | Some b =>
  match nwalkers s with
  | None => ([], Raises (AttributeError "nwalkers"))
  | Some nw =>
  match ndim s with
  | None => ([], Raises (AttributeError "ndim"))
  | Some nd =>
  match zeros [nsteps; size b; nw; nd] with
  | Err e => ([], Raises e)
  | Ok chain =>
  match zeros [nsteps; size b; nw] with
  | Err e => ([EvZeros [nsteps; size b; nw; nd]; EvTqdm nsteps], Raises e)
  | Ok zl =>
  match sample s p0 thin with
  | Err e => (prelude nsteps (size b) nw nd p0 thin, Raises e)
  | Ok g =>
      match for_loop (next s) fuel g nsteps 0 chain zl zl with
      | (log, Returns a) =>
          (prelude nsteps (size b) nw nd p0 thin ++ log ++ [EvClose], Returns a)
      | (log, Raises e) =>
          (prelude nsteps (size b) nw nd p0 thin ++ log, Raises e)
      | (log, OutOfFuel) =>
          (prelude nsteps (size b) nw nd p0 thin ++ log, OutOfFuel)
      end
  end end end end end end.
Proof.
  unfold run_mcmc_fuel.
  destruct (betas s) as [b|]; [|reflexivity].
  destruct (nwalkers s) as [nw|]; [|reflexivity].
  destruct (ndim s) as [nd|]; [|reflexivity].
  cbn [getattr ret bind app].
  unfold np_zeros.
  destruct (zeros [nsteps; size b; nw; nd]) as [chain|e]; [|reflexivity].
  cbn [lift ret throw emit bind app].
  destruct (zeros [nsteps; size b; nw]) as [zl|e]; [|reflexivity].
  cbn [lift ret throw emit bind app].
  unfold call_sample.
  destruct (sample s p0 thin) as [g|e]; [|reflexivity].
  cbn [lift ret throw emit bind app].
  destruct (for_loop (next s) fuel g nsteps 0 chain zl zl) as [log [a|e|]];
    cbn [lift ret throw emit bind app prelude]; reflexivity.
Qed.

(** ** Facts about the array operations *)

Lemma zeros_nonneg (dims : list Z) :
  forallb (fun d => 0 <=? d) dims = true ->
  zeros dims =
  Ok (mk_ndarray (map Z.to_nat dims) (repeat 0%float (prod (map Z.to_nat dims)))).
Proof.
  intros H. unfold zeros.
  replace (existsb (fun d => d <? 0) dims) with false; [reflexivity|].
  symmetry. induction dims as [|d dims IH]; [reflexivity|].
  simpl in *. apply andb_true_iff in H as [Hd Hr].
  rewrite (IH Hr), orb_false_r. lia.
Qed.


Lemma zeros_ok (dims : list Z) (a : ndarray) :
  zeros dims = Ok a ->
  Forall (fun d => 0 <= d) dims /\
  shapeZ a = dims /\
  data a = repeat 0%float (prod (shape a)).
Proof.
  unfold zeros. destruct (existsb _ dims) eqn:E; [discriminate|].
  intros H. injection H as <-. unfold shapeZ. simpl.
  assert (F : Forall (fun d => 0 <= d) dims).
  { induction dims as [|d dims IH]; constructor.
    - simpl in E. apply orb_false_iff in E as [E _]. lia.
    - apply IH. simpl in E. apply orb_false_iff in E as [_ E]. exact E. }
  split; [exact F|split].
  - clear E. induction F as [|d dims Hd _ IH]; simpl; [reflexivity|].
    rewrite IH, Z2Nat.id by exact Hd. reflexivity.
  - reflexivity.
Qed.

Lemma zeros_wf (dims : list Z) (a : ndarray) : zeros dims = Ok a -> wf a.
Proof.
  intros H. apply zeros_ok in H as (_ & _ & H).
  unfold wf. rewrite H. apply repeat_length.
Qed.

Lemma setitem_shape (a : ndarray) (index : Z) (v a' : ndarray) :
  setitem a index v = Ok a' -> shape a' = shape a.
Proof.
  unfold setitem. destruct (shape a) as [|n sub] eqn:E; [discriminate|].
  destruct (_ || _); [discriminate|].
  destruct (broadcast_to v sub); [|discriminate].
  intros H. injection H as <-. simpl. exact E.
Qed.

(** An assignment into an array of extent [n] along the first axis
    goes through only for an index in [-n, n). *)
Lemma setitem_index (a : ndarray) (index : Z) (v a' : ndarray) :
  setitem a index v = Ok a' ->
  exists n sub, shape a = n :: sub /\ - Z.of_nat n <= index < Z.of_nat n.
Proof.
  unfold setitem. destruct (shape a) as [|n sub]; [discriminate|].
  destruct (_ || _) eqn:E; [discriminate|]. intros _.
  exists n, sub. split; [reflexivity|].
  apply orb_false_iff in E. lia.
Qed.

Lemma store_shape (index : Z) (r : StepResult) (c l p c' l' p' : ndarray) :
  store index r (c, l, p) = Ok (c', l', p') ->
  shape c' = shape c /\ shape l' = shape l /\ shape p' = shape p.
Proof.
  unfold store.
  destruct (setitem c index (x r)) as [c1|] eqn:Ec; [|discriminate].
  destruct (setitem l index (logl r)) as [l1|] eqn:El; [|discriminate].
  destruct (setitem p index (logP r)) as [p1|] eqn:Ep; [|discriminate].
  intros H. injection H as <- <- <-.
  repeat split; eapply setitem_shape; eassumption.
Qed.

(** ** Properties of every run of the loop *)

Section Loop.

Context {G : Type} (next : G -> pull G) (nsteps : Z).

(** One step of reasoning about [for_loop next (S fuel)]: the five ways
    an iteration can go. *)
Ltac loop_cases fuel g index c l p :=
  rewrite (for_loop_S next fuel g nsteps index c l p);
  let r := fresh "r" in
  let g' := fresh "g'" in
  let e := fresh "e" in
  let Hn := fresh "Hnext" in
  let Hs := fresh "Hstore" in
  let Hb := fresh "Hbreak" in
  destruct (next g) as [r g'| |e] eqn:Hn;
  [ destruct (store index r (c, l, p)) as [[[c1 l1] p1]|e] eqn:Hs;
    [ destruct (index + 1 >=? nsteps) eqn:Hb | ]
  | | ].

(** The loop never changes the shape of the arrays. *)
Lemma for_loop_shape (fuel : nat) :
  forall g index c l p log c' l' p',
  for_loop next fuel g nsteps index c l p = (log, Returns (c', l', p')) ->
  shape c' = shape c /\ shape l' = shape l /\ shape p' = shape p.
Proof.
  induction fuel as [|fuel IH]; intros g index c l p log c' l' p'.
  - discriminate.
  - loop_cases fuel g index c l p; intros H.
    + injection H as _ <- <- <-. eapply store_shape; eassumption.
    + destruct (for_loop next fuel g' nsteps (index + 1) c1 l1 p1)
        as [log1 o1] eqn:E.
      injection H as _ ->.
      apply IH in E. apply store_shape in Hstore.
      destruct E as (-> & -> & ->). exact Hstore.
    + discriminate.
    + injection H as _ <- <- <-. auto.
    + discriminate.
Qed.

(** With at least one unit of fuel and as many as there are steps
    left, the fuel does not run out. *)
Lemma for_loop_fuel (fuel : nat) :
  forall g index c l p,
  (1 <= fuel)%nat -> (Z.to_nat (nsteps - index) <= fuel)%nat ->
  snd (for_loop next fuel g nsteps index c l p) <> OutOfFuel.
Proof.
  induction fuel as [|fuel IH]; intros g index c l p H1 H2; [lia|].
  loop_cases fuel g index c l p; simpl; try discriminate.
  specialize (IH g' (index + 1) c1 l1 p1).
  destruct (for_loop next fuel g' nsteps (index + 1) c1 l1 p1) as [log1 o1].
  simpl in *. apply IH; lia.
Qed.

(** More fuel than that changes nothing. *)
Lemma for_loop_fuel_mono (fuel : nat) :
  forall k g index c l p,
  (1 <= fuel)%nat -> (Z.to_nat (nsteps - index) <= fuel)%nat ->
  for_loop next (fuel + k) g nsteps index c l p =
  for_loop next fuel g nsteps index c l p.
Proof.
  induction fuel as [|fuel IH]; intros k g index c l p H1 H2; [lia|].
  change (S fuel + k)%nat with (S (fuel + k)).
  rewrite (for_loop_S next (fuel + k)).
  loop_cases fuel g index c l p; try reflexivity.
  rewrite IH by lia. reflexivity.
Qed.

(** The loop calls [next] at most once per step that is left, and at
    least once. *)
Lemma for_loop_pulls (fuel : nat) :
  forall g index c l p,
  (pulls (fst (for_loop next fuel g nsteps index c l p))
   <= Nat.max 1 (Z.to_nat (nsteps - index)))%nat.
Proof.
  induction fuel as [|fuel IH]; intros g index c l p; [simpl; lia|].
  loop_cases fuel g index c l p; cbn [fst pulls]; try lia.
  specialize (IH g' (index + 1) c1 l1 p1).
  destruct (for_loop next fuel g' nsteps (index + 1) c1 l1 p1) as [log1 o1].
  cbn [fst pulls] in *. lia.
Qed.

(** The trace of the loop holds calls of [next] and of [pbar.update]
    only. *)
Lemma for_loop_events (fuel : nat) :
  forall g index c l p ev,
  In ev (fst (for_loop next fuel g nsteps index c l p)) ->
  (exists o, ev = EvNext o) \/ ev = EvUpdate 1.
Proof.
  induction fuel as [|fuel IH]; intros g index c l p ev; [simpl; tauto|].
  loop_cases fuel g index c l p; simpl;
    try (intros [<-|[<-|[]]]; eauto); try (intros [<-|[]]; eauto).
  specialize (IH g' (index + 1) c1 l1 p1 ev).
  destruct (for_loop next fuel g' nsteps (index + 1) c1 l1 p1) as [log1 o1].
  simpl in *. intros [<-|[<-|H]]; eauto.
Qed.

(** A call of [next] that raises ends the loop with that exception, and
    is the last thing the loop does; no earlier call raised. *)
Lemma for_loop_failed (fuel : nat) :
  forall g index c l p e,
  In (EvNext (Failed e)) (fst (for_loop next fuel g nsteps index c l p)) ->
  snd (for_loop next fuel g nsteps index c l p) = Raises e /\
  exists pre,
    fst (for_loop next fuel g nsteps index c l p) = pre ++ [EvNext (Failed e)] /\
    forall e', ~ In (EvNext (Failed e')) pre.
Proof.
  induction fuel as [|fuel IH]; intros g index c l p e; [simpl; tauto|].
  loop_cases fuel g index c l p; simpl.
  - intros [H|[H|[]]]; discriminate.
  - specialize (IH g' (index + 1) c1 l1 p1 e).
    destruct (for_loop next fuel g' nsteps (index + 1) c1 l1 p1) as [log1 o1].
    simpl in *. intros [H|[H|H]]; try discriminate.
    destruct (IH H) as (-> & pre & -> & Hpre).
    split; [reflexivity|].
    exists (EvNext (Yielded r) :: EvUpdate 1 :: pre). split; [reflexivity|].
    intros e' [F|[F|F]]; try discriminate. exact (Hpre e' F).
  - intros [H|[]]; discriminate.
  - intros [H|[]]; discriminate.
  - intros [H|[]]. injection H as ->.
    split; [reflexivity|]. exists []. split; [reflexivity|]. intros e' [].
Qed.

(** The results in the trace of a loop that does not run out of fuel
    are those that the iterator yields from its state at the start. *)
Lemma for_loop_yielded (fuel : nat) :
  forall g index c l p,
  exists g', yields next g
    (yielded (fst (for_loop next fuel g nsteps index c l p))) g'.
Proof.
  induction fuel as [|fuel IH]; intros g index c l p.
  - exists g. constructor.
  - loop_cases fuel g index c l p; simpl.
    + exists g'. econstructor; [eassumption|constructor].
    + destruct (IH g' (index + 1) c1 l1 p1) as [g2 H].
      destruct (for_loop next fuel g' nsteps (index + 1) c1 l1 p1) as [log1 o1].
      simpl in *. exists g2. econstructor; eassumption.
    + exists g'. econstructor; [eassumption|constructor].
    + exists g. constructor.
    + exists g. constructor.
Qed.

End Loop.

(** A trace of calls of [next] and [pbar.update] holds no allocation,
    no call of [sample], and neither opens nor closes a progress bar. *)
Lemma quiet_trace (log : list event) :
  (forall ev, In ev log -> (exists o, ev = EvNext o) \/ ev = EvUpdate 1) ->
  sample_calls log = [] /\ allocations log = O /\
  forall b, pbar_state b log = b.
Proof.
  induction log as [|ev log IH]; intros H; [repeat split|].
  destruct IH as (IH1 & IH2 & IH3); [intros; apply H; now right|].
  destruct (H ev (or_introl eq_refl)) as [[o ->]| ->]; simpl; auto.
Qed.

Lemma pbar_state_app (log1 log2 : list event) (b : bool) :
  pbar_state b (log1 ++ log2) = pbar_state (pbar_state b log1) log2.
Proof.
  revert b. induction log1 as [|ev log1 IH]; intros b; [reflexivity|].
  destruct ev; simpl; apply IH.
Qed.

Lemma sample_calls_app (log1 log2 : list event) :
  sample_calls (log1 ++ log2) = sample_calls log1 ++ sample_calls log2.
Proof.
  induction log1 as [|ev log1 IH]; [reflexivity|].
  destruct ev; simpl; rewrite IH; reflexivity.
Qed.

Lemma pulls_app (log1 log2 : list event) :
  pulls (log1 ++ log2) = (pulls log1 + pulls log2)%nat.
Proof.
  induction log1 as [|ev log1 IH]; [reflexivity|].
  destruct ev; simpl; rewrite IH; reflexivity.
Qed.

Lemma yielded_app (log1 log2 : list event) :
  yielded (log1 ++ log2) = yielded log1 ++ yielded log2.
Proof.
  induction log1 as [|ev log1 IH]; [reflexivity|].
  destruct ev as [| | |[]| |]; simpl; rewrite IH; reflexivity.
Qed.

(** ** Properties of every run of [run_mcmc] *)

(** The cases of [run_mcmc_fuel_eq], with an equation for each. *)
Ltac run_cases s p0 nsteps thin :=
  unfold run_mcmc; rewrite (run_mcmc_fuel_eq _ s p0 nsteps thin);
  let b := fresh "b" in
  let nw := fresh "nw" in
  let nd := fresh "nd" in
  let zl := fresh "zl" in
  let g := fresh "g" in
  let llog := fresh "llog" in
  destruct (betas s) as [b|] eqn:Hbetas;
  [ destruct (nwalkers s) as [nw|] eqn:Hnw;
    [ destruct (ndim s) as [nd|] eqn:Hnd;
      [ destruct (zeros [nsteps; size b; nw; nd]) as [zc|?] eqn:Hz4;
        [ destruct (zeros [nsteps; size b; nw]) as [zl|?] eqn:Hz3;
          [ destruct (sample s p0 thin) as [g|?] eqn:Hsample;
            [ destruct (for_loop (next s) (S (Z.to_nat nsteps)) g nsteps 0
                          zc zl zl) as [llog [[[c1 l1] p1]|?|]] eqn:Hloop
            | ]
          | ]
        | ]
      | ]
    | ]
  | ].

(** [run_mcmc] returns or raises: the fuel of the model is enough. *)
Lemma run_mcmc_total (s : Sampler) (p0 : ndarray) (nsteps thin : Z) :
  snd (run_mcmc s p0 nsteps thin) <> OutOfFuel.
Proof.
  run_cases s p0 nsteps thin; simpl; try discriminate.
  pose proof (for_loop_fuel (next s) nsteps (S (Z.to_nat nsteps)) g 0
                zc zl zl) as F.
  rewrite Hloop in F. apply F; lia.
Qed.

(** Any larger amount of fuel gives the same run. *)
Lemma run_mcmc_fuel_enough (k : nat) (s : Sampler) (p0 : ndarray) (nsteps thin : Z) :
  run_mcmc_fuel (S (Z.to_nat nsteps) + k) s p0 nsteps thin =
  run_mcmc s p0 nsteps thin.
Proof.
  unfold run_mcmc. rewrite !run_mcmc_fuel_eq.
  destruct (betas s), (nwalkers s), (ndim s); try reflexivity.
  destruct (zeros _); try reflexivity.
  destruct (zeros _); try reflexivity.
  destruct (sample s p0 thin); try reflexivity.
  rewrite for_loop_fuel_mono by lia. reflexivity.
Qed.

(** For [nsteps >= 1], [next] is called at most [nsteps] times,
    whatever the iterator could still produce. *)
Lemma pulls_bounded (s : Sampler) (p0 : ndarray) (nsteps thin : Z) :
  1 <= nsteps ->
  (pulls (fst (run_mcmc s p0 nsteps thin)) <= Z.to_nat nsteps)%nat /\
  (length (yielded (fst (run_mcmc s p0 nsteps thin))) <= Z.to_nat nsteps)%nat.
Proof.
  intros Hn.
  assert (Y : forall log, (length (yielded log) <= pulls log)%nat).
  { induction log as [|ev log IH]; [simpl; lia|].
    destruct ev as [| | |[]| |]; simpl; lia. }
  split; [|etransitivity; [apply Y|]];
    (run_cases s p0 nsteps thin; cbn [fst]; unfold prelude;
     rewrite ?pulls_app; cbn [pulls app]; try lia;
     pose proof (for_loop_pulls (next s) nsteps (S (Z.to_nat nsteps)) g 0
                   zc zl zl) as P;
     rewrite Hloop in P; cbn [fst] in P; rewrite ?pulls_app; cbn [pulls]; lia).
Qed.

(** Every triple that [run_mcmc] returns has the shapes that the
    three arrays were allocated with. *)
Lemma returned_shapes (s : Sampler) (p0 : ndarray) (nsteps thin : Z)
    (log : list event) (chain logl_ logpi : ndarray) :
  run_mcmc s p0 nsteps thin = (log, Returns (chain, logl_, logpi)) ->
  exists b nw nd,
    betas s = Some b /\ nwalkers s = Some nw /\ ndim s = Some nd /\
    shapeZ chain = [nsteps; size b; nw; nd] /\
    shapeZ logl_ = [nsteps; size b; nw] /\
    shapeZ logpi = [nsteps; size b; nw].
Proof.
  run_cases s p0 nsteps thin; try discriminate.
  intros H. injection H as _ <- <- <-.
  apply for_loop_shape in Hloop as (Hc & Hl & Hp).
  apply zeros_ok in Hz4 as (_ & Hz4 & _).
  apply zeros_ok in Hz3 as (_ & Hz3 & _).
  exists b, nw, nd. unfold shapeZ in *.
  rewrite Hc, Hl, Hp. repeat split; assumption.
Qed.

(** C5: when a call of [next] on the sampler's iterator raises [e],
    whichever call it is, [run_mcmc] ends with the exception [e] and
    returns nothing; the raising call is the last call that [run_mcmc]
    makes, and no call of [next] before it had raised: nothing is
    retried and nothing is recovered. *)
Theorem sampler_fault_propagates (s : Sampler) (p0 : ndarray) (nsteps thin : Z)
    (e : exn) :
  In (EvNext (Failed e)) (fst (run_mcmc s p0 nsteps thin)) ->
  snd (run_mcmc s p0 nsteps thin) = Raises e /\
  exists pre,
    fst (run_mcmc s p0 nsteps thin) = pre ++ [EvNext (Failed e)] /\
    forall e', ~ In (EvNext (Failed e')) pre.
Proof.
  run_cases s p0 nsteps thin; cbn [fst snd];
    try (intros H; exfalso; simpl in H; intuition discriminate).
  all: pose proof (for_loop_failed (next s) nsteps (S (Z.to_nat nsteps)) g 0
                     zc zl zl e) as F;
    rewrite Hloop in F; cbn [fst snd] in F; intros H;
    apply in_app_or in H as [H|H];
    try (exfalso; simpl in H; intuition discriminate).
  - apply in_app_or in H as [H|H];
      [|exfalso; simpl in H; intuition discriminate].
    destruct (F H) as [F1 _]. discriminate.
  - destruct (F H) as (F1 & pre & -> & Hpre). split; [exact F1|].
    exists (prelude nsteps (size b) nw nd p0 thin ++ pre).
    split; [apply app_assoc|].
    intros e' H'. apply in_app_or in H' as [H'|H'];
      [simpl in H'; intuition discriminate|exact (Hpre e' H')].
Qed.

(** An exception raised by the call [sampler.sample(p0, thin_by=thin)]
    itself leaves [run_mcmc] in the same way. *)
Lemma sample_call_fault_propagates (s : Sampler) (p0 : ndarray) (nsteps thin : Z)
    (e : exn) (b : ndarray) (nw nd : Z) :
  betas s = Some b -> nwalkers s = Some nw -> ndim s = Some nd ->
  0 <= nsteps -> 0 <= nw -> 0 <= nd ->
  sample s p0 thin = Err e ->
  run_mcmc s p0 nsteps thin = (prelude nsteps (size b) nw nd p0 thin, Raises e).
Proof.
  intros Hb Hw Hd H1 H2 H3 Hs.
  unfold run_mcmc. rewrite run_mcmc_fuel_eq, Hb, Hw, Hd, Hs.
  assert (Hsz : 0 <= size b) by (unfold size; lia).
  rewrite !zeros_nonneg; [reflexivity| |];
    simpl; rewrite ?andb_true_iff; repeat split; lia.
Qed.

(** C8, as amended: the progress bar is closed, by the last call that
    [run_mcmc] makes, on every path on which [run_mcmc] returns (the
    step counter reached [nsteps], or the iterator was exhausted).  On
    every path on which an exception leaves [run_mcmc] after the bar
    was opened, [pbar.close()] is not called and the bar stays open. *)
Theorem pbar_closed_on_return_only (s : Sampler) (p0 : ndarray) (nsteps thin : Z) :
  (forall a, snd (run_mcmc s p0 nsteps thin) = Returns a ->
     pbar_left_open (fst (run_mcmc s p0 nsteps thin)) = false /\
     In (EvTqdm nsteps) (fst (run_mcmc s p0 nsteps thin)) /\
     exists pre, fst (run_mcmc s p0 nsteps thin) = pre ++ [EvClose]) /\
  (forall e, snd (run_mcmc s p0 nsteps thin) = Raises e ->
     ~ In EvClose (fst (run_mcmc s p0 nsteps thin)) /\
     (In (EvTqdm nsteps) (fst (run_mcmc s p0 nsteps thin)) ->
      pbar_left_open (fst (run_mcmc s p0 nsteps thin)) = true)).
Proof.
  run_cases s p0 nsteps thin; cbn [fst snd]; split; intros ? H;
    try discriminate;
    try (split; [simpl; intuition discriminate|];
         simpl; solve [intuition discriminate | reflexivity]).
  all: pose proof (for_loop_events (next s) nsteps (S (Z.to_nat nsteps)) g 0
                     zc zl zl) as Ev;
    rewrite Hloop in Ev; cbn [fst] in Ev;
    destruct (quiet_trace _ Ev) as (_ & _ & Q).
  - unfold pbar_left_open. rewrite !pbar_state_app, Q.
    split; [reflexivity|]. split; [simpl; auto|].
    exists (prelude nsteps (size b) nw nd p0 thin ++ llog).
    apply app_assoc.
  - split.
    + intros F. apply in_app_or in F as [F|F];
        [simpl in F; intuition discriminate|].
      destruct (Ev _ F) as [[o Ho]|Ho]; discriminate.
    + intros _. unfold pbar_left_open. rewrite pbar_state_app, Q. reflexivity.
Qed.

(** C9: [run_mcmc] calls [sampler.sample] at most once, and then with
    the very [p0] and [thin] it was given; it does call it whenever the
    sampler has its attributes and no extent is negative.  The results
    that [run_mcmc] consumes are yielded by the iterator which that call
    gave. *)
Theorem thin_and_p0_passed_through (s : Sampler) (p0 : ndarray) (nsteps thin : Z) :
  (sample_calls (fst (run_mcmc s p0 nsteps thin)) = [] \/
   sample_calls (fst (run_mcmc s p0 nsteps thin)) = [(p0, thin)]) /\
  (forall b nw nd,
     betas s = Some b -> nwalkers s = Some nw -> ndim s = Some nd ->
     0 <= nsteps -> 0 <= nw -> 0 <= nd ->
     sample_calls (fst (run_mcmc s p0 nsteps thin)) = [(p0, thin)]) /\
  (forall g, sample s p0 thin = Ok g ->
     exists g', yields (next s) g
                  (yielded (fst (run_mcmc s p0 nsteps thin))) g').
Proof.
  assert (A : forall dims a, zeros dims = Err a ->
                forallb (fun d => 0 <=? d) dims = true -> False).
  { intros dims a H F. rewrite (zeros_nonneg _ F) in H. discriminate. }
  assert (N : forall b, 0 <= size b) by (intros; unfold size; lia).
  run_cases s p0 nsteps thin; cbn [fst].
  all: try (pose proof (for_loop_events (next s) nsteps (S (Z.to_nat nsteps))
                          g 0 zc zl zl) as Ev;
            rewrite Hloop in Ev; cbn [fst] in Ev;
            destruct (quiet_trace _ Ev) as (Q & _ & _);
            pose proof (for_loop_yielded (next s) nsteps (S (Z.to_nat nsteps))
                          g 0 zc zl zl) as [g2 Y];
            rewrite Hloop in Y; cbn [fst] in Y).
  all: split; [|split].
  all: try (intros b' nw' nd' Eb Ew Ed ? ? ?;
            injection Eb as <-; try injection Ew as <-; try injection Ed as <-).
  all: try discriminate.
  all: rewrite ?sample_calls_app, ?Q; try (simpl; auto; fail).
  all: try (exfalso; eapply A; [eassumption|]; specialize (N b);
            simpl; rewrite ?andb_true_iff; repeat split; lia).
  all: intros g1 Hg; try discriminate; try (injection Hg as <-).
  all: rewrite ?yielded_app; cbn [yielded prelude app];
       rewrite ?app_nil_r; try (eexists; eassumption); eexists; constructor.
Qed.

(** ** Slots of an array *)

Section Slots.

Lemma skipn_repeat (v : float) (k m : nat) :
  skipn k (repeat v m) = repeat v (m - k).
Proof.
  revert m. induction k as [|k IH]; intros [|m]; simpl; auto.
Qed.

Lemma firstn_repeat_le (v : float) (k m : nat) :
  (k <= m)%nat -> firstn k (repeat v m) = repeat v k.
Proof.
  revert m. induction k as [|k IH]; intros [|m] H; simpl; try lia; auto.
  rewrite IH by lia. reflexivity.
Qed.

Lemma chunks_concat (sz n : nat) :
  forall d, length d = (n * sz)%nat -> concat (chunks sz n d) = d.
Proof.
  induction n as [|n IH]; intros d H; simpl in *.
  - destruct d; [reflexivity|discriminate].
  - rewrite IH; [apply firstn_skipn|]. rewrite length_skipn. lia.
Qed.

Lemma chunks_each (sz n : nat) :
  forall d, length d = (n * sz)%nat ->
  Forall (fun c => length c = sz) (chunks sz n d).
Proof.
  induction n as [|n IH]; intros d H; simpl in *; constructor.
  - rewrite length_firstn. lia.
  - apply IH. rewrite length_skipn. lia.
Qed.

Lemma sequence_opt_fixed {A} (f : A -> option A) (l : list A) :
  Forall (fun a => f a = Some a) l -> sequence_opt (map f l) = Some l.
Proof.
  induction 1 as [|a l Ha _ IH]; simpl; [reflexivity|].
  rewrite Ha, IH. reflexivity.
Qed.

(** Broadcasting to the value's own shape copies the buffer. *)
Lemma compatible_same (sh : list nat) : compatible sh sh = true.
Proof.
  induction sh as [|s sh IH]; [reflexivity|].
  simpl. rewrite Nat.eqb_refl, IH. reflexivity.
Qed.

Lemma bcast_same (sh : list nat) :
  forall d, length d = prod sh -> bcast sh sh d = Some d.
Proof.
  induction sh as [|s sh IH]; intros d H; simpl in *; [reflexivity|].
  rewrite Nat.eqb_refl, compatible_same, sequence_opt_fixed.
  - simpl. rewrite chunks_concat by exact H. reflexivity.
  - eapply Forall_impl; [|apply chunks_each; exact H].
    intros c Hc. apply IH. exact Hc.
Qed.

Lemma broadcast_to_same (v : ndarray) :
  wf v -> broadcast_to v (shape v) = Some (data v).
Proof.
  intros H. unfold broadcast_to, align.
  rewrite Nat.leb_refl, Nat.sub_diag. simpl.
  apply bcast_same. exact H.
Qed.

(** An assignment of a value that has the shape of the slot, at an
    index within the first axis, writes the buffer of the value. *)
Lemma setitem_same (a : ndarray) (n : nat) (index : Z) (v : ndarray) :
  shape a = n :: shape v -> wf v -> 0 <= index < Z.of_nat n ->
  setitem a index v = Ok (put_slot a (Z.to_nat index) (data v)).
Proof.
  intros Hs Hv Hi. unfold setitem. rewrite Hs.
  replace (_ || _) with false
    by (symmetry; apply orb_false_iff; split; lia).
  rewrite broadcast_to_same by exact Hv.
  replace (index <? 0) with false by lia. reflexivity.
Qed.

Variables (n : nat) (sub : list nat).

Lemma put_slot_wf (a : ndarray) (i : nat) (blk : list float) :
  wf a -> shape a = n :: sub -> (i < n)%nat -> length blk = prod sub ->
  wf (put_slot a i blk).
Proof.
  unfold wf, put_slot, splice. intros Ha Hs Hi Hb. simpl.
  rewrite Hs in *. simpl in *.
  rewrite !length_app, length_firstn, length_skipn. nia.
Qed.

Lemma get_put_same (a : ndarray) (i : nat) (blk : list float) :
  wf a -> shape a = n :: sub -> (i < n)%nat -> length blk = prod sub ->
  get_slot (put_slot a i blk) i = blk.
Proof.
  unfold wf, get_slot, put_slot, splice. intros Ha Hs Hi Hb. simpl.
  rewrite Hs in *. simpl in *.
  assert (L : length (firstn (i * prod sub) (data a)) = (i * prod sub)%nat)
    by (rewrite length_firstn; nia).
  rewrite skipn_app, L, Nat.sub_diag.
  rewrite skipn_all2 by lia. simpl.
  rewrite firstn_app, <- Hb, Nat.sub_diag, firstn_all. simpl.
  apply app_nil_r.
Qed.

Lemma get_put_other (a : ndarray) (i j : nat) (blk : list float) :
  wf a -> shape a = n :: sub -> (i < n)%nat -> length blk = prod sub ->
  j <> i -> get_slot (put_slot a i blk) j = get_slot a j.
Proof.
  unfold wf, get_slot, put_slot, splice. intros Ha Hs Hi Hb Hj. simpl.
  rewrite Hs in *. simpl in *. rewrite Hb.
  set (sz := prod sub) in *.
  assert (L : length (firstn (i * sz) (data a)) = (i * sz)%nat)
    by (rewrite length_firstn; nia).
  destruct (Nat.lt_ge_cases j i) as [Hlt|Hge].
  - assert (j * sz + sz <= i * sz)%nat by nia.
    rewrite skipn_app, firstn_app, L.
    rewrite length_skipn, L.
    replace (sz - (i * sz - j * sz))%nat with O by lia.
    rewrite firstn_O, app_nil_r.
    rewrite skipn_firstn_comm, firstn_firstn.
    f_equal. lia.
  - assert (i * sz + sz <= j * sz)%nat by nia.
    rewrite skipn_app, L.
    rewrite (skipn_all2 (firstn (i * sz) (data a))) by lia. simpl.
    rewrite skipn_app, Hb.
    rewrite (skipn_all2 blk) by lia. simpl.
    rewrite skipn_skipn. do 2 f_equal. lia.
Qed.

Lemma get_slot_zeros (dims : list Z) (a : ndarray) (j : nat) :
  zeros dims = Ok a -> shape a = n :: sub -> (j < n)%nat ->
  get_slot a j = repeat 0%float (prod sub).
Proof.
  intros Hz Hs Hj. apply zeros_ok in Hz as (_ & _ & Hd).
  unfold get_slot. rewrite Hd, Hs. simpl.
  rewrite skipn_repeat, firstn_repeat_le; [reflexivity|nia].
Qed.

End Slots.

(** ** Runs on results of the declared shapes *)

Lemma shapeZ_inj (a : ndarray) (sh : list nat) :
  shapeZ a = map Z.of_nat sh -> shape a = sh.
Proof.
  unfold shapeZ. generalize (shape a) as l. intros l. revert sh.
  induction l as [|k l IH]; intros [|k' sh] H; try discriminate; auto.
  simpl in H. injection H as Hk Hl. f_equal; [lia|auto].
Qed.

Section Fill.

Variables (sel : StepResult -> ndarray) (n : nat) (sub : list nat).

Lemma fill_spec (rs : list StepResult) :
  forall index a,
  wf a -> shape a = n :: sub -> Forall (fun r => wf (sel r) /\ shape (sel r) = sub) rs ->
  (index + length rs <= n)%nat ->
  wf (fill sel rs index a) /\
  shape (fill sel rs index a) = n :: sub /\
  (forall i r, nth_error rs i = Some r ->
     get_slot (fill sel rs index a) (index + i) = data (sel r)) /\
  (forall j, (j < index \/ index + length rs <= j)%nat ->
     get_slot (fill sel rs index a) j = get_slot a j).
Proof.
  induction rs as [|r rs IH]; intros index a Ha Hs Hf Hn; simpl in *.
  - repeat split; auto. intros [|i] r H; discriminate.
  - inversion Hf as [|? ? [Hw Hsh] Hf']; subst.
    assert (Hb : length (data (sel r)) = prod (shape (sel r))) by exact Hw.
    destruct (IH (S index) (put_slot a index (data (sel r))))
      as (W & S' & I & O); auto; try lia.
    { eapply put_slot_wf; eauto; lia. }
    repeat split; auto.
    + intros [|i] r' H; simpl in H.
      * injection H as <-. rewrite Nat.add_0_r, O by lia.
        eapply get_put_same; eauto; lia.
      * replace (index + S i)%nat with (S index + i)%nat by lia. auto.
    + intros j Hj. rewrite O by lia.
      eapply get_put_other; eauto; lia.
Qed.

Lemma fill_app (rs : list StepResult) (r : StepResult) :
  forall index a,
  fill sel (rs ++ [r]) index a =
  put_slot (fill sel rs index a) (index + length rs) (data (sel r)).
Proof.
  induction rs as [|r' rs IH]; intros index a; simpl.
  - rewrite Nat.add_0_r. reflexivity.
  - rewrite IH. f_equal. lia.
Qed.

End Fill.

Lemma yields_nil_inv {G} (next : G -> pull G) (g g' : G) :
  yields next g [] g' -> g' = g.
Proof. intros H. inversion H. reflexivity. Qed.

Lemma yields_app {G} (next : G -> pull G) (rs : list StepResult) (r : StepResult) :
  forall g g', yields next g (rs ++ [r]) g' ->
  exists g1, yields next g rs g1 /\ next g1 = PYield r g'.
Proof.
  induction rs as [|r' rs IH]; intros g g' H; simpl in H.
  - inversion H as [|? ? ? ? ? Hn Hy]; subst. inversion Hy; subst.
    exists g. split; [constructor|assumption].
  - inversion H as [|? ? ? ? ? Hn Hy]; subst.
    destruct (IH _ _ Hy) as (gl & Hy1 & Hn1).
    exists gl. split; [econstructor; eassumption|assumption].
Qed.

Section Conforming.

Context {G : Type} (next : G -> pull G).
Variables (nsteps nt nw nd : Z).

Hypothesis Hnsteps : 0 <= nsteps.
Hypothesis Hnt : 0 <= nt.
Hypothesis Hnw : 0 <= nw.
Hypothesis Hnd : 0 <= nd.

Lemma slots_shapes (c l p : ndarray) :
  slots_ok nsteps nt nw nd c l p ->
  shape c = Z.to_nat nsteps :: map Z.to_nat [nt; nw; nd] /\
  shape l = Z.to_nat nsteps :: map Z.to_nat [nt; nw] /\
  shape p = Z.to_nat nsteps :: map Z.to_nat [nt; nw].
Proof.
  intros (_ & _ & _ & Hc & Hl & Hp).
  repeat split; apply shapeZ_inj; simpl; rewrite !Z2Nat.id by lia; assumption.
Qed.

Lemma conforms_shapes (r : StepResult) :
  conforms nt nw nd r ->
  shape (x r) = map Z.to_nat [nt; nw; nd] /\
  shape (logl r) = map Z.to_nat [nt; nw] /\
  shape (logP r) = map Z.to_nat [nt; nw].
Proof.
  intros (_ & _ & _ & Hc & Hl & Hp).
  repeat split; apply shapeZ_inj; simpl; rewrite !Z2Nat.id by lia; assumption.
Qed.

(** The loop body on a result of the declared shapes, at an index
    within the arrays: the three assignments go through. *)
Lemma store_conforming (index : Z) (r : StepResult) (c l p : ndarray) :
  slots_ok nsteps nt nw nd c l p -> conforms nt nw nd r -> 0 <= index < nsteps ->
  store index r (c, l, p) =
  Ok (put_slot c (Z.to_nat index) (data (x r)),
      put_slot l (Z.to_nat index) (data (logl r)),
      put_slot p (Z.to_nat index) (data (logP r))) /\
  slots_ok nsteps nt nw nd (put_slot c (Z.to_nat index) (data (x r)))
           (put_slot l (Z.to_nat index) (data (logl r)))
           (put_slot p (Z.to_nat index) (data (logP r))).
Proof.
  intros Hs Hr Hi.
  destruct (slots_shapes _ _ _ Hs) as (Sc & Sl & Sp).
  destruct (conforms_shapes _ Hr) as (Rx & Rl & Rp).
  destruct Hs as (Wc & Wl & Wp & Zc & Zl & Zp).
  destruct Hr as (Wx & Wll & WP & _).
  split.
  - unfold store.
    rewrite (setitem_same c (Z.to_nat nsteps)), (setitem_same l (Z.to_nat nsteps)),
      (setitem_same p (Z.to_nat nsteps)); try reflexivity; try assumption;
      try lia; congruence.
  - unfold slots_ok. repeat split; try assumption.
    + eapply put_slot_wf; [exact Wc|exact Sc|lia|]. rewrite <- Rx. exact Wx.
    + eapply put_slot_wf; [exact Wl|exact Sl|lia|]. rewrite <- Rl. exact Wll.
    + eapply put_slot_wf; [exact Wp|exact Sp|lia|]. rewrite <- Rp. exact WP.
Qed.

(** While results of the declared shapes are yielded and the last
    slot is not reached, the loop stores them and goes on. *)
Lemma for_loop_conforming (rs : list StepResult) :
  forall g g' index c l p fuel,
  yields next g rs g' -> Forall (conforms nt nw nd) rs ->
  slots_ok nsteps nt nw nd c l p -> 0 <= index ->
  index + Z.of_nat (length rs) < nsteps ->
  for_loop next (length rs + fuel) g nsteps index c l p =
  (let (log, o) :=
     for_loop next fuel g' nsteps (index + Z.of_nat (length rs))
       (fill x rs (Z.to_nat index) c)
       (fill logl rs (Z.to_nat index) l)
       (fill logP rs (Z.to_nat index) p) in
   (stored rs ++ log, o)) /\
  slots_ok nsteps nt nw nd (fill x rs (Z.to_nat index) c)
           (fill logl rs (Z.to_nat index) l)
           (fill logP rs (Z.to_nat index) p).
Proof.
  induction rs as [|r rs IH]; intros g g' index c l p fuel Hy Hf Hs Hi Hlt.
  - inversion Hy; subst. simpl. rewrite Z.add_0_r.
    split; [|exact Hs]. destruct (for_loop _ _ _ _ _ _ _ _). reflexivity.
  - inversion Hy as [|? ? g1 ? ? Hn Hy']; subst.
    inversion Hf as [|? ? Hr Hf']; subst.
    simpl length in *.
    destruct (store_conforming index r c l p Hs Hr) as [St Hs']; [lia|].
    change (S (length rs) + fuel)%nat with (S (length rs + fuel)).
    rewrite for_loop_S, Hn, St.
    replace (index + 1 >=? nsteps) with false by lia.
    destruct (IH g1 g' (index + 1) _ _ _ fuel Hy' Hf' Hs') as [E Hs2];
      [lia|lia|].
    rewrite E. simpl fill.
    replace (Z.to_nat (index + 1)) with (S (Z.to_nat index)) in * by lia.
    replace (index + 1 + Z.of_nat (length rs))
      with (index + Z.of_nat (S (length rs))) by lia.
    split; [|exact Hs2]. clear E.
    destruct (for_loop next fuel g' _ _ _ _ _) as [log o]. reflexivity.
Qed.

End Conforming.

Lemma yielded_stored (rs : list StepResult) : yielded (stored rs) = rs.
Proof.
  induction rs as [|r rs IH]; simpl; [reflexivity|]. rewrite IH. reflexivity.
Qed.

Lemma pulls_stored (rs : list StepResult) : pulls (stored rs) = length rs.
Proof.
  induction rs as [|r rs IH]; simpl; [reflexivity|]. rewrite IH. reflexivity.
Qed.

Section Runs.

Variables (s : Sampler) (p0 : ndarray) (nsteps thin : Z).
Variables (b : ndarray) (nw nd : Z).

Hypothesis Hbetas : betas s = Some b.
Hypothesis Hnwalkers : nwalkers s = Some nw.
Hypothesis Hndim : ndim s = Some nd.
Hypothesis Hnw : 0 <= nw.
Hypothesis Hnd : 0 <= nd.
Hypothesis Hnsteps : 0 <= nsteps.

Lemma size_nonneg : 0 <= size b.
Proof. unfold size. lia. Qed.

Lemma zeros_chain0 :
  zeros [nsteps; size b; nw; nd] = Ok (chain0 nsteps b nw nd).
Proof.
  pose proof size_nonneg.
  apply zeros_nonneg. simpl. rewrite !andb_true_iff. repeat split; lia.
Qed.

Lemma zeros_logs0 : zeros [nsteps; size b; nw] = Ok (logs0 nsteps b nw).
Proof.
  pose proof size_nonneg.
  apply zeros_nonneg. simpl. rewrite !andb_true_iff. repeat split; lia.
Qed.

Lemma slots_ok_zeros :
  slots_ok nsteps (size b) nw nd
    (chain0 nsteps b nw nd) (logs0 nsteps b nw) (logs0 nsteps b nw).
Proof.
  pose proof size_nonneg.
  unfold slots_ok. repeat split;
    try (eapply zeros_wf; first [apply zeros_chain0 | apply zeros_logs0]);
    unfold shapeZ; simpl; rewrite !Z2Nat.id by lia; reflexivity.
Qed.

(** The run, once the attributes are read and the arrays allocated. *)
Lemma run_mcmc_from_loop (g : gen s) :
  sample s p0 thin = Ok g ->
  run_mcmc s p0 nsteps thin =
  match for_loop (next s) (S (Z.to_nat nsteps)) g nsteps 0
          (chain0 nsteps b nw nd) (logs0 nsteps b nw) (logs0 nsteps b nw) with
  | (log, Returns a) =>
      (prelude nsteps (size b) nw nd p0 thin ++ log ++ [EvClose], Returns a)
  | (log, Raises e) => (prelude nsteps (size b) nw nd p0 thin ++ log, Raises e)
  | (log, OutOfFuel) => (prelude nsteps (size b) nw nd p0 thin ++ log, OutOfFuel)
  end.
Proof.
  intros Hs. unfold run_mcmc.
  rewrite run_mcmc_fuel_eq, Hbetas, Hnwalkers, Hndim, zeros_chain0, zeros_logs0, Hs.
  reflexivity.
Qed.

Variables (g g' : gen s) (rs : list StepResult).

Hypothesis Hsample : sample s p0 thin = Ok g.
Hypothesis Hconf : Forall (conforms (size b) nw nd) rs.

(** The iterator ends after fewer than [nsteps] results. *)
Lemma run_mcmc_exhausted :
  yields (next s) g rs g' -> next s g' = PStop ->
  Z.of_nat (length rs) < nsteps ->
  run_mcmc s p0 nsteps thin =
  (prelude nsteps (size b) nw nd p0 thin ++ stored rs
     ++ [EvNext Exhausted; EvClose],
   Returns (fill x rs 0 (chain0 nsteps b nw nd),
            fill logl rs 0 (logs0 nsteps b nw),
            fill logP rs 0 (logs0 nsteps b nw))).
Proof.
  intros Hy Hstop Hlt.
  rewrite (run_mcmc_from_loop g Hsample).
  replace (S (Z.to_nat nsteps))
    with (length rs + S (Z.to_nat nsteps - length rs))%nat by lia.
  destruct (for_loop_conforming (next s) nsteps (size b) nw nd
              Hnsteps size_nonneg Hnw Hnd rs g g' 0
              (chain0 nsteps b nw nd) (logs0 nsteps b nw) (logs0 nsteps b nw)
              (S (Z.to_nat nsteps - length rs)) Hy Hconf slots_ok_zeros)
    as [E _]; [lia|lia|].
  rewrite E, for_loop_S, Hstop. simpl Z.to_nat.
  rewrite <- app_assoc. reflexivity.
Qed.

(** The iterator yields [nsteps] results, and may have more. *)
Lemma run_mcmc_full :
  yields (next s) g rs g' -> 1 <= nsteps ->
  Z.of_nat (length rs) = nsteps ->
  run_mcmc s p0 nsteps thin =
  (prelude nsteps (size b) nw nd p0 thin ++ stored rs ++ [EvClose],
   Returns (fill x rs 0 (chain0 nsteps b nw nd),
            fill logl rs 0 (logs0 nsteps b nw),
            fill logP rs 0 (logs0 nsteps b nw))).
Proof.
  intros Hy H1 Hlen.
  destruct (exists_last (l := rs)) as (rs' & r & ->).
  { intros ->. simpl in Hlen. lia. }
  rewrite length_app in Hlen. simpl in Hlen.
  apply yields_app in Hy as (g1 & Hy & Hn).
  apply Forall_app in Hconf as [Hconf' Hr]. apply Forall_inv in Hr as Hr'.
  rewrite (run_mcmc_from_loop g Hsample).
  replace (S (Z.to_nat nsteps))
    with (length rs' + S (Z.to_nat nsteps - length rs'))%nat by lia.
  destruct (for_loop_conforming (next s) nsteps (size b) nw nd
              Hnsteps size_nonneg Hnw Hnd rs' g g1 0
              (chain0 nsteps b nw nd) (logs0 nsteps b nw) (logs0 nsteps b nw)
              (S (Z.to_nat nsteps - length rs')) Hy Hconf' slots_ok_zeros)
    as [E Hs']; [lia|lia|].
  rewrite E, for_loop_S, Hn. simpl Z.to_nat in *.
  destruct (store_conforming nsteps (size b) nw nd Hnsteps size_nonneg Hnw Hnd
              (0 + Z.of_nat (length rs')) r _ _ _ Hs' Hr') as [St _]; [lia|].
  rewrite St.
  replace (0 + Z.of_nat (length rs') + 1 >=? nsteps) with true by lia.
  rewrite !fill_app. simpl Nat.add.
  replace (Z.to_nat (0 + Z.of_nat (length rs'))) with (length rs') by lia.
  f_equal. unfold stored. rewrite flat_map_app. simpl.
  rewrite <- !app_assoc. reflexivity.
Qed.

(** The iterator raises in place of result number [length rs], which
    the loop asks for: fewer than [nsteps] results came before, or none. *)
Lemma run_mcmc_failed (e : exn) :
  yields (next s) g rs g' -> next s g' = PRaise e ->
  Z.of_nat (length rs) < nsteps \/ rs = [] ->
  run_mcmc s p0 nsteps thin =
  (prelude nsteps (size b) nw nd p0 thin ++ stored rs ++ [EvNext (Failed e)],
   Raises e).
Proof.
  intros Hy Hfail [Hlt|Hnil].
  - rewrite (run_mcmc_from_loop g Hsample).
    replace (S (Z.to_nat nsteps))
      with (length rs + S (Z.to_nat nsteps - length rs))%nat by lia.
    destruct (for_loop_conforming (next s) nsteps (size b) nw nd
                Hnsteps size_nonneg Hnw Hnd rs g g' 0
                (chain0 nsteps b nw nd) (logs0 nsteps b nw) (logs0 nsteps b nw)
                (S (Z.to_nat nsteps - length rs)) Hy Hconf slots_ok_zeros)
      as [E _]; [lia|lia|].
    rewrite E, for_loop_S, Hfail. reflexivity.
  - rewrite Hnil in Hy. apply yields_nil_inv in Hy. rewrite Hy in Hfail.
    rewrite (run_mcmc_from_loop g Hsample), for_loop_S, Hfail, Hnil.
    reflexivity.
Qed.

(** With [nsteps = 0] the loop still takes a first result if there is
    one, and the assignment into the empty chain raises. *)
Lemma run_mcmc_zero_steps (r : StepResult) :
  nsteps = 0 -> next s g = PYield r g' ->
  run_mcmc s p0 nsteps thin =
  (prelude nsteps (size b) nw nd p0 thin ++ [EvNext (Yielded r)],
   Raises (IndexError "index is out of bounds for axis 0")).
Proof.
  intros Hz Hn.
  rewrite (run_mcmc_from_loop g Hsample), for_loop_S, Hn.
  unfold chain0, logs0. rewrite Hz. reflexivity.
Qed.

End Runs.

Section Filled.

Variables (nsteps : Z) (b : ndarray) (nw nd : Z) (rs : list StepResult).

Hypothesis Hnw : 0 <= nw.
Hypothesis Hnd : 0 <= nd.
Hypothesis Hnsteps : 0 <= nsteps.
Hypothesis Hconf : Forall (conforms (size b) nw nd) rs.
Hypothesis Hlen : Z.of_nat (length rs) <= nsteps.

Lemma conforming_fits :
  Forall (fun r => wf (x r) /\ shape (x r) = map Z.to_nat [size b; nw; nd]) rs /\
  Forall (fun r => wf (logl r) /\ shape (logl r) = map Z.to_nat [size b; nw]) rs /\
  Forall (fun r => wf (logP r) /\ shape (logP r) = map Z.to_nat [size b; nw]) rs.
Proof.
  repeat split; eapply Forall_impl; try exact Hconf;
    intros r Hr;
    destruct (conforms_shapes (size b) nw nd (size_nonneg b) Hnw Hnd r Hr)
      as (Sx & Sl & Sp);
    destruct Hr as (Wx & Wl & Wp & _); auto.
Qed.

(** After the results [rs] were stored from slot 0 of the arrays that
    [np.zeros] gave, slot [i] holds result [i], and the slots from
    [length rs] on still hold zeros. *)
Lemma filled_slots :
  (forall i r, nth_error rs i = Some r ->
     get_slot (fill x rs 0 (chain0 nsteps b nw nd)) i = data (x r) /\
     get_slot (fill logl rs 0 (logs0 nsteps b nw)) i = data (logl r) /\
     get_slot (fill logP rs 0 (logs0 nsteps b nw)) i = data (logP r)) /\
  (forall j, (length rs <= j < Z.to_nat nsteps)%nat ->
     get_slot (fill x rs 0 (chain0 nsteps b nw nd)) j
       = repeat 0%float (chain_slot b nw nd) /\
     get_slot (fill logl rs 0 (logs0 nsteps b nw)) j
       = repeat 0%float (logs_slot b nw) /\
     get_slot (fill logP rs 0 (logs0 nsteps b nw)) j
       = repeat 0%float (logs_slot b nw)).
Proof.
  destruct conforming_fits as (Fx & Fl & Fp).
  pose proof (zeros_chain0 nsteps b nw nd Hnw Hnd Hnsteps) as Zc.
  pose proof (zeros_logs0 nsteps b nw Hnw Hnsteps) as Zl.
  destruct (fill_spec x (Z.to_nat nsteps) (map Z.to_nat [size b; nw; nd]) rs
              0 (chain0 nsteps b nw nd))
    as (_ & _ & Ix & Ox);
    [eapply zeros_wf; exact Zc|reflexivity|exact Fx|lia|].
  destruct (fill_spec logl (Z.to_nat nsteps) (map Z.to_nat [size b; nw]) rs
              0 (logs0 nsteps b nw))
    as (_ & _ & Il & Ol);
    [eapply zeros_wf; exact Zl|reflexivity|exact Fl|lia|].
  destruct (fill_spec logP (Z.to_nat nsteps) (map Z.to_nat [size b; nw]) rs
              0 (logs0 nsteps b nw))
    as (_ & _ & Ip & Op);
    [eapply zeros_wf; exact Zl|reflexivity|exact Fp|lia|].
  split.
  - intros i r Hi. repeat split; [apply Ix|apply Il|apply Ip]; exact Hi.
  - intros j Hj. rewrite Ox, Ol, Op by lia.
    repeat split;
      first [ eapply get_slot_zeros; [exact Zc|reflexivity|lia]
            | eapply get_slot_zeros; [exact Zl|reflexivity|lia] ].
Qed.

End Filled.

(** ** Runs of the stub samplers *)

Lemma stub_yields (nt nw nd : nat) (fin : Stub.ending) (k : nat) :
  forall start,
  (match fin with
   | Stub.Forever => True
   | Stub.StopAfter len | Stub.FailAfter len _ => (start + k <= len)%nat
   end) ->
  yields (Stub.stub_next nt nw nd fin) start
         (map (Stub.result_of nt nw nd) (seq start k)) (start + k)%nat.
Proof.
  induction k as [|k IH]; intros start H; simpl.
  - rewrite Nat.add_0_r. constructor.
  - replace (start + S k)%nat with (S start + k)%nat by lia.
    econstructor; [|apply IH; destruct fin; auto; lia].
    unfold Stub.stub_next. destruct fin; auto;
      replace (start <? len)%nat with true
        by (symmetry; apply Nat.ltb_lt; lia); reflexivity.
Qed.

Lemma stub_conforms (nt nw nd k : nat) :
  conforms (Z.of_nat nt) (Z.of_nat nw) (Z.of_nat nd) (Stub.result_of nt nw nd k).
Proof.
  unfold conforms, wf, Stub.result_of, Stub.full; simpl.
  rewrite !repeat_length. repeat split; reflexivity.
Qed.

(** ** The claims about stored results *)

(** C1: for any sampler, any [p0], [nsteps] and [thin] (so for every
    [nsteps >= 0] and [thin >= 1]), the triple that [run_mcmc] returns
    is made of a chain of shape (nsteps, ntemps, nwalkers, ndim) and of
    log-likelihood and log-prior arrays of shape
    (nsteps, ntemps, nwalkers), where ntemps is the size of
    [sampler.betas] and nwalkers, ndim are the sampler's attributes.
    And [run_mcmc] does return such a triple when [nsteps >= 1] and the
    sampler has its attributes and yields results of the declared
    shapes, [nsteps] of them or fewer before its iterator ends. *)
Theorem run_mcmc_shapes (s : Sampler) (p0 : ndarray) (nsteps thin : Z) :
  (forall log chain logl_ logpi,
     run_mcmc s p0 nsteps thin = (log, Returns (chain, logl_, logpi)) ->
     exists b nw nd,
       betas s = Some b /\ nwalkers s = Some nw /\ ndim s = Some nd /\
       shapeZ chain = [nsteps; size b; nw; nd] /\
       shapeZ logl_ = [nsteps; size b; nw] /\
       shapeZ logpi = [nsteps; size b; nw]) /\
  (forall b nw nd (g g' : gen s) rs,
     betas s = Some b -> nwalkers s = Some nw -> ndim s = Some nd ->
     0 <= nw -> 0 <= nd -> 1 <= nsteps ->
     sample s p0 thin = Ok g ->
     yields (next s) g rs g' ->
     Forall (conforms (size b) nw nd) rs ->
     (Z.of_nat (length rs) = nsteps \/
      (Z.of_nat (length rs) < nsteps /\ next s g' = PStop)) ->
     exists log chain logl_ logpi,
       run_mcmc s p0 nsteps thin = (log, Returns (chain, logl_, logpi)) /\
       shapeZ chain = [nsteps; size b; nw; nd] /\
       shapeZ logl_ = [nsteps; size b; nw] /\
       shapeZ logpi = [nsteps; size b; nw]).
Proof.
  split.
  - intros log chain logl_ logpi. apply returned_shapes.
  - intros b nw nd g g' rs Hb Hw Hd Hnw Hnd Hn Hs Hy Hc Hcase.
    assert (H0 : 0 <= nsteps) by lia.
    assert (R : exists log a, run_mcmc s p0 nsteps thin = (log, Returns a)).
    { destruct Hcase as [Hfull|[Hlt Hstop]]; do 2 eexists.
      - eapply run_mcmc_full; eassumption.
      - eapply run_mcmc_exhausted; eassumption. }
    destruct R as (log & [[chain logl_] logpi] & R).
    destruct (returned_shapes _ _ _ _ _ _ _ _ R)
      as (b' & nw' & nd' & Eb & Ew & Ed & Sc & Sl & Sp).
    rewrite Hb in Eb. rewrite Hw in Ew. rewrite Hd in Ed.
    injection Eb as <-. injection Ew as <-. injection Ed as <-.
    exists log, chain, logl_, logpi. repeat split; assumption.
Qed.

(** C10: the extent of the temperature axis of the three returned
    arrays is [np.size(sampler.betas)], the number of elements of
    [betas]: this holds of every triple that [run_mcmc] returns, and
    [run_mcmc] does return such a triple for [nsteps >= 1] on a sampler
    that has its attributes and yields results of the declared shapes.
    The [ntemps] attribute of the sampler has no part in the run,
    whatever it holds; and a sampler without [betas] makes [run_mcmc]
    raise [AttributeError] before it does anything else. *)
Theorem ntemps_is_size_of_betas (s : Sampler) (p0 : ndarray) (nsteps thin : Z) :
  (betas s = None ->
     run_mcmc s p0 nsteps thin = ([], Raises (AttributeError "betas"))) /\
  (forall log chain logl_ logpi,
     run_mcmc s p0 nsteps thin = (log, Returns (chain, logl_, logpi)) ->
     exists b, betas s = Some b /\
       nth 1 (shapeZ chain) 0 = Z.of_nat (prod (shape b)) /\
       nth 1 (shapeZ logl_) 0 = Z.of_nat (prod (shape b)) /\
       nth 1 (shapeZ logpi) 0 = Z.of_nat (prod (shape b))) /\
  (forall v, run_mcmc (with_ntemps v s) p0 nsteps thin =
             run_mcmc s p0 nsteps thin) /\
  (forall b nw nd (g g' : gen s) rs,
     betas s = Some b -> wf b ->
     nwalkers s = Some nw -> ndim s = Some nd ->
     0 <= nw -> 0 <= nd -> 1 <= nsteps ->
     sample s p0 thin = Ok g ->
     yields (next s) g rs g' ->
     Forall (conforms (size b) nw nd) rs ->
     (Z.of_nat (length rs) = nsteps \/
      (Z.of_nat (length rs) < nsteps /\ next s g' = PStop)) ->
     exists log chain logl_ logpi,
       run_mcmc s p0 nsteps thin = (log, Returns (chain, logl_, logpi)) /\
       nth 1 (shapeZ chain) 0 = Z.of_nat (length (data b)) /\
       nth 1 (shapeZ logl_) 0 = Z.of_nat (length (data b)) /\
       nth 1 (shapeZ logpi) 0 = Z.of_nat (length (data b))).
Proof.
  split; [|split; [|split]].
  - intros H. unfold run_mcmc. rewrite run_mcmc_fuel_eq, H. reflexivity.
  - intros log chain logl_ logpi H.
    destruct (returned_shapes _ _ _ _ _ _ _ _ H)
      as (b & nw & nd & Eb & _ & _ & Sc & Sl & Sp).
    exists b. rewrite Sc, Sl, Sp. repeat split; assumption.
  - intros v. destruct s. reflexivity.
  - intros b nw nd g g' rs Hb Wb Hw Hd Hnw Hnd Hn Hs Hy Hc Hcase.
    assert (H0 : 0 <= nsteps) by lia.
    assert (R : exists log a, run_mcmc s p0 nsteps thin = (log, Returns a)).
    { destruct Hcase as [Hfull|[Hlt Hstop]]; do 2 eexists.
      - eapply run_mcmc_full; eassumption.
      - eapply run_mcmc_exhausted; eassumption. }
    destruct R as (log & [[chain logl_] logpi] & R).
    destruct (returned_shapes _ _ _ _ _ _ _ _ R)
      as (b' & nw' & nd' & Eb & _ & _ & Sc & Sl & Sp).
    rewrite Hb in Eb. injection Eb as <-.
    exists log, chain, logl_, logpi.
    rewrite Sc, Sl, Sp, Wb. repeat split; assumption.
Qed.

(** C4: for [nsteps >= 1] and a sampler (with its attributes, and
    results of the declared shapes) whose iterator ends after the
    [k < nsteps] results [rs], [run_mcmc] returns; it has consumed
    exactly [rs]; slot [i < k] of each array holds the matching field
    of result [i]; and the slots from [k] to [nsteps - 1] of the three
    arrays hold the zeros they were allocated with. *)
Theorem short_sequence_zero_padded (s : Sampler) (p0 : ndarray) (nsteps thin : Z)
    (b : ndarray) (nw nd : Z) (g g' : gen s) (rs : list StepResult) :
  betas s = Some b -> nwalkers s = Some nw -> ndim s = Some nd ->
  0 <= nw -> 0 <= nd -> 1 <= nsteps ->
  sample s p0 thin = Ok g ->
  yields (next s) g rs g' -> next s g' = PStop ->
  Forall (conforms (size b) nw nd) rs ->
  Z.of_nat (length rs) < nsteps ->
  exists log chain logl_ logpi,
    run_mcmc s p0 nsteps thin = (log, Returns (chain, logl_, logpi)) /\
    yielded log = rs /\
    (forall i r, nth_error rs i = Some r ->
       get_slot chain i = data (x r) /\
       get_slot logl_ i = data (logl r) /\
       get_slot logpi i = data (logP r)) /\
    (forall j, (length rs <= j < Z.to_nat nsteps)%nat ->
       get_slot chain j = repeat 0%float (chain_slot b nw nd) /\
       get_slot logl_ j = repeat 0%float (logs_slot b nw) /\
       get_slot logpi j = repeat 0%float (logs_slot b nw)).
Proof.
  intros Hb Hw Hd Hnw Hnd Hn Hs Hy Hstop Hc Hlt.
  assert (H0 : 0 <= nsteps) by lia.
  do 4 eexists. split; [|split].
  - eapply run_mcmc_exhausted; eassumption.
  - rewrite !yielded_app, yielded_stored. simpl. apply app_nil_r.
  - apply filled_slots; auto; lia.
Qed.

(** C7: for [nsteps >= 1] and a sampler (with its attributes, and
    results of the declared shapes) whose iterator yields the results
    [rs], these being its first [nsteps] results or all its results
    when there are fewer, [run_mcmc] returns, has consumed exactly [rs]
    in that order, and slot [i] of the chain, of the log-likelihood
    array and of the log-prior array holds [x], [logl] and [logP] of
    result [i]: nothing is reordered and nothing is skipped. *)
Theorem step_axis_follows_yield_order (s : Sampler) (p0 : ndarray)
    (nsteps thin : Z) (b : ndarray) (nw nd : Z) (g g' : gen s)
    (rs : list StepResult) :
  betas s = Some b -> nwalkers s = Some nw -> ndim s = Some nd ->
  0 <= nw -> 0 <= nd -> 1 <= nsteps ->
  sample s p0 thin = Ok g ->
  yields (next s) g rs g' ->
  Forall (conforms (size b) nw nd) rs ->
  (Z.of_nat (length rs) = nsteps \/
   (Z.of_nat (length rs) < nsteps /\ next s g' = PStop)) ->
  exists log chain logl_ logpi,
    run_mcmc s p0 nsteps thin = (log, Returns (chain, logl_, logpi)) /\
    yielded log = rs /\
    forall i r, nth_error rs i = Some r ->
      get_slot chain i = data (x r) /\
      get_slot logl_ i = data (logl r) /\
      get_slot logpi i = data (logP r).
Proof.
  intros Hb Hw Hd Hnw Hnd Hn Hs Hy Hc Hcase.
  assert (H0 : 0 <= nsteps) by lia.
  destruct Hcase as [Hfull|[Hlt Hstop]]; do 4 eexists; (split; [|split]).
  - eapply run_mcmc_full; eassumption.
  - rewrite !yielded_app, yielded_stored. simpl. apply app_nil_r.
  - apply filled_slots; auto; lia.
  - eapply run_mcmc_exhausted; eassumption.
  - rewrite !yielded_app, yielded_stored. simpl. apply app_nil_r.
  - apply filled_slots; auto; lia.
Qed.

(** ** The claims that the code does not meet *)

(** C3: with [nsteps = 0] and a sampler (with its attributes) whose
    iterator has a first result [r], [run_mcmc] calls [next] once,
    takes [r], and ends with the [IndexError] of the assignment into
    the chain of extent 0; it returns no arrays. *)
Theorem zero_steps_consumes_then_raises (s : Sampler) (p0 : ndarray) (thin : Z)
    (b : ndarray) (nw nd : Z) (g g' : gen s) (r : StepResult) :
  betas s = Some b -> nwalkers s = Some nw -> ndim s = Some nd ->
  0 <= nw -> 0 <= nd ->
  sample s p0 thin = Ok g -> next s g = PYield r g' ->
  run_mcmc s p0 0 thin =
    (prelude 0 (size b) nw nd p0 thin ++ [EvNext (Yielded r)],
     Raises (IndexError "index is out of bounds for axis 0")) /\
  pulls (fst (run_mcmc s p0 0 thin)) = 1%nat /\
  yielded (fst (run_mcmc s p0 0 thin)) = [r].
Proof.
  intros Hb Hw Hd Hnw Hnd Hs Hn.
  rewrite (run_mcmc_zero_steps s p0 0 thin b nw nd Hb Hw Hd Hnw Hnd
             (Z.le_refl 0) g g' Hs r eq_refl Hn).
  repeat split.
Qed.

(** C2, at [nsteps = 0]: on an iterator that never ends, [run_mcmc]
    calls [next] once and takes one result, one more than [nsteps],
    before the assignment at index 0 raises [IndexError]. *)
Theorem zero_steps_pulls_beyond_bound :
  pulls (fst (run_mcmc (Stub.stub 2 1 2 Stub.Forever) (Stub.p0 1 2) 0 1))
    = 1%nat /\
  yielded (fst (run_mcmc (Stub.stub 2 1 2 Stub.Forever) (Stub.p0 1 2) 0 1))
    = [Stub.result_of 2 1 2 0] /\
  snd (run_mcmc (Stub.stub 2 1 2 Stub.Forever) (Stub.p0 1 2) 0 1)
    = Raises (IndexError "index is out of bounds for axis 0").
Proof. vm_compute. repeat split. Qed.




(** C8 fails: when the first call of [next] raises, [run_mcmc] ends
    with that exception and the progress bar it opened is still open. *)
Lemma pbar_left_open_on_fault :
  snd (run_mcmc (Stub.stub 1 1 1 (Stub.FailAfter 0 (Exception "boom")))
         (Stub.p0 1 1) 1 1)
    = Raises (Exception "boom") /\
  In (EvTqdm 1)
     (fst (run_mcmc (Stub.stub 1 1 1 (Stub.FailAfter 0 (Exception "boom")))
             (Stub.p0 1 1) 1 1)) /\
  pbar_left_open
    (fst (run_mcmc (Stub.stub 1 1 1 (Stub.FailAfter 0 (Exception "boom")))
            (Stub.p0 1 1) 1 1)) = true.
Proof. vm_compute. repeat split. right. left. reflexivity. Qed.

(** ** The theorems at concrete samplers *)

(** C1 on two steps of a sampler of 2 temperatures, 1 walker and 2
    dimensions that never ends. *)
Lemma run_mcmc_shapes_witness :
  exists log chain logl_ logpi,
    run_mcmc (Stub.stub 2 1 2 Stub.Forever) (Stub.p0 1 2) 2 1
      = (log, Returns (chain, logl_, logpi)) /\
    shapeZ chain = [2; 2; 1; 2] /\
    shapeZ logl_ = [2; 2; 1] /\
    shapeZ logpi = [2; 2; 1].
Proof.
  apply (proj2 (run_mcmc_shapes (Stub.stub 2 1 2 Stub.Forever) (Stub.p0 1 2) 2 1)
           (Stub.full [2%nat] 1%float) 1 2 0%nat 2%nat
           (map (Stub.result_of 2 1 2) (seq 0 2))).
  - reflexivity.
  - reflexivity.
  - reflexivity.
  - lia.
  - lia.
  - lia.
  - reflexivity.
  - simpl. repeat (eapply yields_cons; [reflexivity|]). apply yields_nil.
  - simpl. repeat constructor.
  - left. reflexivity.
Defined.

(** C4 on a sampler that yields 3 results when 5 steps are asked for. *)
Lemma short_sequence_zero_padded_witness :
  exists log chain logl_ logpi,
    run_mcmc (Stub.stub 2 1 2 (Stub.StopAfter 3)) (Stub.p0 1 2) 5 1
      = (log, Returns (chain, logl_, logpi)) /\
    yielded log = map (Stub.result_of 2 1 2) (seq 0 3) /\
    (forall i r,
       nth_error (map (Stub.result_of 2 1 2) (seq 0 3)) i = Some r ->
       get_slot chain i = data (x r) /\
       get_slot logl_ i = data (logl r) /\
       get_slot logpi i = data (logP r)) /\
    (forall j, (3 <= j < 5)%nat ->
       get_slot chain j = repeat 0%float 4 /\
       get_slot logl_ j = repeat 0%float 2 /\
       get_slot logpi j = repeat 0%float 2).
Proof.
  apply (short_sequence_zero_padded
           (Stub.stub 2 1 2 (Stub.StopAfter 3)) (Stub.p0 1 2) 5 1
           (Stub.full [2%nat] 1%float) 1 2 0%nat 3%nat
           (map (Stub.result_of 2 1 2) (seq 0 3))).
  - reflexivity.
  - reflexivity.
  - reflexivity.
  - lia.
  - lia.
  - lia.
  - reflexivity.
  - simpl. repeat (eapply yields_cons; [reflexivity|]). apply yields_nil.
  - reflexivity.
  - simpl. repeat constructor.
  - simpl. lia.
Defined.

(** C5 on a sampler whose iterator raises in place of its second
    result. *)
Lemma sampler_fault_propagates_witness :
  snd (run_mcmc (Stub.stub 2 1 2 (Stub.FailAfter 1 (Exception "boom")))
         (Stub.p0 1 2) 3 1) = Raises (Exception "boom") /\
  exists pre,
    fst (run_mcmc (Stub.stub 2 1 2 (Stub.FailAfter 1 (Exception "boom")))
           (Stub.p0 1 2) 3 1) = pre ++ [EvNext (Failed (Exception "boom"))] /\
    forall e', ~ In (EvNext (Failed e')) pre.
Proof.
  apply (sampler_fault_propagates
           (Stub.stub 2 1 2 (Stub.FailAfter 1 (Exception "boom")))
           (Stub.p0 1 2) 3 1 (Exception "boom")).
  vm_compute. repeat (first [left; reflexivity | right]).
Defined.

(** C7 on three steps of a sampler that never ends. *)
Lemma step_axis_follows_yield_order_witness :
  exists log chain logl_ logpi,
    run_mcmc (Stub.stub 2 1 2 Stub.Forever) (Stub.p0 1 2) 3 1
      = (log, Returns (chain, logl_, logpi)) /\
    yielded log = map (Stub.result_of 2 1 2) (seq 0 3) /\
    forall i r,
      nth_error (map (Stub.result_of 2 1 2) (seq 0 3)) i = Some r ->
      get_slot chain i = data (x r) /\
      get_slot logl_ i = data (logl r) /\
      get_slot logpi i = data (logP r).
Proof.
  apply (step_axis_follows_yield_order
           (Stub.stub 2 1 2 Stub.Forever) (Stub.p0 1 2) 3 1
           (Stub.full [2%nat] 1%float) 1 2 0%nat 3%nat
           (map (Stub.result_of 2 1 2) (seq 0 3))).
  - reflexivity.
  - reflexivity.
  - reflexivity.
  - lia.
  - lia.
  - lia.
  - reflexivity.
  - simpl. repeat (eapply yields_cons; [reflexivity|]). apply yields_nil.
  - simpl. repeat constructor.
  - left. reflexivity.
Defined.

(** C3 on a sampler that never ends. *)
Lemma zero_steps_consumes_then_raises_witness :
  run_mcmc (Stub.stub 2 1 2 Stub.Forever) (Stub.p0 1 2) 0 1 =
    (prelude 0 2 1 2 (Stub.p0 1 2) 1
       ++ [EvNext (Yielded (Stub.result_of 2 1 2 0))],
     Raises (IndexError "index is out of bounds for axis 0")) /\
  pulls (fst (run_mcmc (Stub.stub 2 1 2 Stub.Forever) (Stub.p0 1 2) 0 1))
    = 1%nat /\
  yielded (fst (run_mcmc (Stub.stub 2 1 2 Stub.Forever) (Stub.p0 1 2) 0 1))
    = [Stub.result_of 2 1 2 0].
Proof.
  apply (zero_steps_consumes_then_raises
           (Stub.stub 2 1 2 Stub.Forever) (Stub.p0 1 2) 1
           (Stub.full [2%nat] 1%float) 1 2 0%nat 1%nat
           (Stub.result_of 2 1 2 0)).
  - reflexivity.
  - reflexivity.
  - reflexivity.
  - lia.
  - lia.
  - reflexivity.
  - reflexivity.
Defined.


(** C8, as amended, on a run that returns. *)
Lemma pbar_closed_on_return_only_witness :
  pbar_left_open
    (fst (run_mcmc (Stub.stub 1 1 1 (Stub.StopAfter 1)) (Stub.p0 1 1) 2 1))
    = false /\
  In (EvTqdm 2)
    (fst (run_mcmc (Stub.stub 1 1 1 (Stub.StopAfter 1)) (Stub.p0 1 1) 2 1)) /\
  exists pre,
    fst (run_mcmc (Stub.stub 1 1 1 (Stub.StopAfter 1)) (Stub.p0 1 1) 2 1)
      = pre ++ [EvClose].
Proof.
  eapply (proj1 (pbar_closed_on_return_only
                   (Stub.stub 1 1 1 (Stub.StopAfter 1)) (Stub.p0 1 1) 2 1)).
  vm_compute. reflexivity.
Defined.

(** C9 with [thin = 7]. *)
Lemma thin_and_p0_passed_through_witness :
  sample_calls
    (fst (run_mcmc (Stub.stub 2 1 2 Stub.Forever) (Stub.p0 1 2) 2 7))
    = [(Stub.p0 1 2, 7)].
Proof.
  apply (proj1 (proj2 (thin_and_p0_passed_through
                         (Stub.stub 2 1 2 Stub.Forever) (Stub.p0 1 2) 2 7))
           (Stub.full [2%nat] 1%float) 1 2);
    first [reflexivity | lia].
Defined.

(** C10 on two steps of a sampler that declares [ntemps = 5] and has
    a [betas] of 2 elements: the temperature axis has extent 2. *)
Lemma ntemps_is_size_of_betas_witness :
  exists log chain logl_ logpi,
    run_mcmc (with_ntemps (Some 5) (Stub.stub 2 1 2 Stub.Forever))
             (Stub.p0 1 2) 2 1
      = (log, Returns (chain, logl_, logpi)) /\
    nth 1 (shapeZ chain) 0 = 2 /\
    nth 1 (shapeZ logl_) 0 = 2 /\
    nth 1 (shapeZ logpi) 0 = 2.
Proof.
  apply (proj2 (proj2 (proj2 (ntemps_is_size_of_betas
                                (with_ntemps (Some 5)
                                   (Stub.stub 2 1 2 Stub.Forever))
                                (Stub.p0 1 2) 2 1)))
           (Stub.full [2%nat] 1%float) 1 2 0%nat 2%nat
           (map (Stub.result_of 2 1 2) (seq 0 2))).
  - reflexivity.
  - reflexivity.
  - reflexivity.
  - reflexivity.
  - lia.
  - lia.
  - lia.
  - reflexivity.
  - simpl. repeat (eapply yields_cons; [reflexivity|]). apply yields_nil.
  - simpl. repeat constructor.
  - left. reflexivity.
Defined.

(** * Further properties of [run_mcmc] *)

(** ** More about the loop *)

Lemma updates_app (log1 log2 : list event) :
  updates (log1 ++ log2) = updates log1 + updates log2.
Proof.
  induction log1 as [|ev log1 IH]; [reflexivity|].
  destruct ev; simpl; rewrite IH; lia.
Qed.

Lemma opened_app (log1 log2 : list event) :
  opened (log1 ++ log2) = opened log1 ++ opened log2.
Proof.
  induction log1 as [|ev log1 IH]; [reflexivity|].
  destruct ev; simpl; rewrite IH; reflexivity.
Qed.

Lemma quiet_opened (log : list event) :
  (forall ev, In ev log -> (exists o, ev = EvNext o) \/ ev = EvUpdate 1) ->
  opened log = [].
Proof.
  induction log as [|ev log IH]; intros H; [reflexivity|].
  destruct (H ev (or_introl eq_refl)) as [[o ->]| ->]; simpl;
    apply IH; intros; apply H; now right.
Qed.

(** Why an assignment at a non-negative index fails: the index is
    past the first axis, or the value cannot be broadcast. *)
Lemma setitem_err (a : ndarray) (n : nat) (sub : list nat) (index : Z)
    (v : ndarray) (e : exn) :
  shape a = n :: sub -> 0 <= index -> setitem a index v = Err e ->
  (e = IndexError "index is out of bounds for axis 0" /\ Z.of_nat n <= index) \/
  (e = ValueError "could not broadcast input array" /\ index < Z.of_nat n).
Proof.
  intros Hs Hi. unfold setitem. rewrite Hs.
  destruct (_ || _) eqn:E.
  - intros H. injection H as <-. left. split; [reflexivity|].
    apply orb_true_iff in E. lia.
  - apply orb_false_iff in E.
    destruct (broadcast_to v sub); [discriminate|].
    intros H. injection H as <-. right. split; [reflexivity|lia].
Qed.

Lemma store_err (n : nat) (sc sl sp : list nat) (index : Z) (r : StepResult)
    (c l p : ndarray) (e : exn) :
  shape c = n :: sc -> shape l = n :: sl -> shape p = n :: sp ->
  0 <= index -> store index r (c, l, p) = Err e ->
  (e = IndexError "index is out of bounds for axis 0" /\ Z.of_nat n <= index) \/
  (e = ValueError "could not broadcast input array" /\ index < Z.of_nat n).
Proof.
  intros Hc Hl Hp Hi. unfold store.
  destruct (setitem c index (x r)) as [c'|e1] eqn:Ec.
  - destruct (setitem l index (logl r)) as [l'|e2] eqn:El.
    + destruct (setitem p index (logP r)) as [p'|e3] eqn:Ep; [discriminate|].
      intros H. injection H as <-.
      exact (setitem_err p n sp index (logP r) e3 Hp Hi Ep).
    + intros H. injection H as <-.
      exact (setitem_err l n sl index (logl r) e2 Hl Hi El).
  - intros H. injection H as <-.
    exact (setitem_err c n sc index (x r) e1 Hc Hi Ec).
Qed.

Section LoopAccounts.

Context {G : Type} (next : G -> pull G) (nsteps : Z).

Ltac iteration fuel g index c l p :=
  rewrite (for_loop_S next fuel g nsteps index c l p);
  let r := fresh "r" in
  let g' := fresh "g'" in
  let e := fresh "e" in
  let Hn := fresh "Hnext" in
  let Hs := fresh "Hstore" in
  let Hb := fresh "Hbreak" in
  destruct (next g) as [r g'| |e] eqn:Hn;
  [ destruct (store index r (c, l, p)) as [[[c1 l1] p1]|e] eqn:Hs;
    [ destruct (index + 1 >=? nsteps) eqn:Hb | ]
  | | ].

(** One [pbar.update(1)] follows each result that was stored: the
    updates count the results taken, but for a last result whose
    assignment raised. *)
Lemma for_loop_updates (fuel : nat) :
  forall g index c l p,
  updates (fst (for_loop next fuel g nsteps index c l p))
    <= Z.of_nat (length (yielded (fst (for_loop next fuel g nsteps index c l p))))
    <= updates (fst (for_loop next fuel g nsteps index c l p)) + 1 /\
  (forall a, snd (for_loop next fuel g nsteps index c l p) = Returns a ->
     updates (fst (for_loop next fuel g nsteps index c l p))
     = Z.of_nat (length (yielded (fst (for_loop next fuel g nsteps index c l p))))).
Proof.
  induction fuel as [|fuel IH]; intros g index c l p.
  - simpl. split; [lia|intros; discriminate].
  - iteration fuel g index c l p; cbn [fst snd updates yielded length];
      try (split; [lia|intros; try discriminate; lia]).
    specialize (IH g' (index + 1) c1 l1 p1).
    destruct (for_loop next fuel g' nsteps (index + 1) c1 l1 p1) as [log o].
    cbn [fst snd updates yielded length] in *.
    destruct IH as [IH1 IH2]. split; [lia|].
    intros a Ha. specialize (IH2 a Ha). lia.
Qed.

(** An exception that leaves the loop was raised by [next], or is the
    [ValueError] of a value that cannot be broadcast, or is the
    [IndexError] of an index past the first axis, which needs
    [nsteps <= index] at the start. *)
Lemma for_loop_raises (fuel : nat) :
  forall g index c l p (n : nat) sc sl sp e,
  Z.of_nat n = nsteps ->
  shape c = n :: sc -> shape l = n :: sl -> shape p = n :: sp ->
  0 <= index ->
  snd (for_loop next fuel g nsteps index c l p) = Raises e ->
  In (EvNext (Failed e)) (fst (for_loop next fuel g nsteps index c l p)) \/
  e = ValueError "could not broadcast input array" \/
  (e = IndexError "index is out of bounds for axis 0" /\ nsteps <= index).
Proof.
  induction fuel as [|fuel IH]; intros g index c l p n sc sl sp e Hn Hc Hl Hp Hi.
  - discriminate.
  - iteration fuel g index c l p; cbn [fst snd]; try discriminate.
    + destruct (store_shape _ _ _ _ _ _ _ _ Hstore) as (Sc & Sl & Sp).
      specialize (IH g' (index + 1) c1 l1 p1 n sc sl sp e Hn).
      destruct (for_loop next fuel g' nsteps (index + 1) c1 l1 p1) as [log o].
      cbn [fst snd] in *. intros Ho.
      destruct IH as [F|[F|[F1 F2]]]; try congruence; try lia.
      * left. right. right. exact F.
      * right. left. exact F.
    + intros H. injection H as <-.
      destruct (store_err n sc sl sp index r c l p e0 Hc Hl Hp Hi Hstore)
        as [[-> Hge]|[-> _]].
      * right. right. split; [reflexivity|lia].
      * right. left. reflexivity.
    + intros H. injection H as <-. left. left. reflexivity.
Qed.

End LoopAccounts.

(** ** Shapes that cannot be broadcast *)

Lemma bcast_mismatch (src : list nat) :
  forall tgt d,
  length src = length tgt -> Forall (fun t => (0 < t)%nat) tgt ->
  mismatch src tgt = true -> bcast src tgt d = None.
Proof.
  induction src as [|s src IH]; intros [|t tgt] d Hlen Hpos Hm;
    try discriminate.
  simpl in *. inversion Hpos as [|? ? Ht Hpos']; subst.
  destruct (s =? t)%nat eqn:Est.
  - simpl in Hm. apply Nat.eqb_eq in Est. subst s.
    destruct (compatible src tgt); [|reflexivity].
    destruct t as [|t']; [lia|]. simpl.
    rewrite IH; auto.
  - destruct (s =? 1)%nat eqn:Es1; [|reflexivity].
    simpl in Hm. rewrite IH; auto.
Qed.

(** Shapes that are not compatible are never broadcast, also behind
    an axis of extent 0. *)
Lemma bcast_incompatible (src : list nat) :
  forall tgt d, compatible src tgt = false -> bcast src tgt d = None.
Proof.
  induction src as [|s src IH]; intros [|t tgt] d H; simpl in *;
    try discriminate; try reflexivity.
  destruct (s =? t)%nat; simpl in H.
  - rewrite H. reflexivity.
  - destruct (s =? 1)%nat; simpl in H; [|reflexivity].
    rewrite IH by exact H. reflexivity.
Qed.

Lemma broadcast_to_mismatch (v : ndarray) (tgt : list nat) :
  length (shape v) = length tgt -> Forall (fun t => (0 < t)%nat) tgt ->
  mismatch (shape v) tgt = true -> broadcast_to v tgt = None.
Proof.
  intros Hlen Hpos Hm. unfold broadcast_to, align.
  rewrite Hlen, Nat.leb_refl, Nat.sub_diag. simpl.
  apply bcast_mismatch; assumption.
Qed.

(** ** Further properties of every run *)

Lemma zeros_err (dims : list Z) (e : exn) :
  zeros dims = Err e ->
  e = ValueError "negative dimensions are not allowed" /\
  existsb (fun d => d <? 0) dims = true.
Proof.
  unfold zeros. destruct (existsb _ dims); [|discriminate].
  intros H. injection H as <-. split; reflexivity.
Qed.

Lemma zeros_first_axis (d : Z) (dims : list Z) (a : ndarray) :
  zeros (d :: dims) = Ok a ->
  exists n sub, shape a = n :: sub /\ Z.of_nat n = d.
Proof.
  intros H. apply zeros_ok in H as (_ & H & _). unfold shapeZ in H.
  destruct (shape a) as [|n sub]; [discriminate|].
  injection H as H _. eauto.
Qed.

(** X1: for [nsteps >= 1] and any sampler, also one whose iterator
    never ends, [run_mcmc] calls [next] at most [nsteps] times and
    takes at most [nsteps] results. *)
Theorem next_called_at_most_nsteps (s : Sampler) (p0 : ndarray) (nsteps thin : Z) :
  1 <= nsteps ->
  Z.of_nat (pulls (fst (run_mcmc s p0 nsteps thin))) <= nsteps /\
  Z.of_nat (length (yielded (fst (run_mcmc s p0 nsteps thin)))) <= nsteps.
Proof.
  intros H. destruct (pulls_bounded s p0 nsteps thin H) as [P Y]. lia.
Qed.

(** X2: [run_mcmc] opens at most one progress bar, with total
    [nsteps]; every update is by 1, one after each result stored, so
    the updates count the results taken, but for a last result whose
    assignment raised; when [run_mcmc] returns, the bar was opened and
    the updates equal the number of results taken. *)
Theorem progress_counts_results (s : Sampler) (p0 : ndarray) (nsteps thin : Z) :
  (opened (fst (run_mcmc s p0 nsteps thin)) = [] \/
   opened (fst (run_mcmc s p0 nsteps thin)) = [nsteps]) /\
  updates (fst (run_mcmc s p0 nsteps thin))
    <= Z.of_nat (length (yielded (fst (run_mcmc s p0 nsteps thin))))
    <= updates (fst (run_mcmc s p0 nsteps thin)) + 1 /\
  (forall a, snd (run_mcmc s p0 nsteps thin) = Returns a ->
     opened (fst (run_mcmc s p0 nsteps thin)) = [nsteps] /\
     updates (fst (run_mcmc s p0 nsteps thin))
     = Z.of_nat (length (yielded (fst (run_mcmc s p0 nsteps thin))))).
Proof.
  run_cases s p0 nsteps thin; cbn [fst snd].
  all: try (pose proof (for_loop_events (next s) nsteps (S (Z.to_nat nsteps))
                          g 0 zc zl zl) as Ev;
            pose proof (for_loop_updates (next s) nsteps (S (Z.to_nat nsteps))
                          g 0 zc zl zl) as [U1 U2];
            rewrite Hloop in Ev, U1, U2; cbn [fst snd] in Ev, U1, U2;
            pose proof (quiet_opened _ Ev) as Q).
  all: rewrite ?opened_app, ?updates_app, ?yielded_app, ?length_app, ?Q.
  all: cbn [prelude opened updates yielded app length].
  all: rewrite ?app_nil_r.
  all: split; [auto|split; [try lia|intros a Ha; try discriminate]].
  split; [reflexivity|]. specialize (U2 _ eq_refl). lia.
Qed.

(** X3: for [nsteps >= 1] the index of the loop never leaves the
    arrays: an [IndexError] that leaves [run_mcmc] was raised by
    [sampler.sample] or by a call of [next], not by an assignment of
    the loop. *)
Theorem index_error_only_from_sampler (s : Sampler) (p0 : ndarray)
    (nsteps thin : Z) (msg : string) :
  1 <= nsteps ->
  snd (run_mcmc s p0 nsteps thin) = Raises (IndexError msg) ->
  sample s p0 thin = Err (IndexError msg) \/
  In (EvNext (Failed (IndexError msg))) (fst (run_mcmc s p0 nsteps thin)).
Proof.
  intros H1.
  run_cases s p0 nsteps thin; cbn [fst snd]; intros H;
    try discriminate; injection H as ->; auto.
  - destruct (zeros_first_axis _ _ _ Hz4) as (n & sc & Sc & Hn).
    destruct (zeros_first_axis _ _ _ Hz3) as (n' & sl & Sl & Hn').
    assert (n' = n) by lia. subst n'.
    pose proof (for_loop_raises (next s) nsteps (S (Z.to_nat nsteps)) g 0
                  zc zl zl n sc sl sl (IndexError msg) Hn Sc Sl Sl
                  (Z.le_refl 0)) as R.
    rewrite Hloop in R. cbn [fst snd] in R.
    destruct (R eq_refl) as [F|[F|[_ F]]].
    + right. apply in_or_app. right. exact F.
    + discriminate.
    + lia.
  - apply zeros_err in Hz3 as [Hz3 _]. discriminate.
  - apply zeros_err in Hz4 as [Hz4 _]. discriminate.
Qed.

(** X5: when the call [sampler.sample(p0, thin_by=thin)] itself
    raises, the sampler having its attributes and no extent being
    negative, that exception leaves [run_mcmc]; the arrays were
    allocated, [next] was never called and the bar is left open. *)
Theorem sample_call_fault_leaves_bar_open (s : Sampler) (p0 : ndarray)
    (nsteps thin : Z) (e : exn) (b : ndarray) (nw nd : Z) :
  betas s = Some b -> nwalkers s = Some nw -> ndim s = Some nd ->
  0 <= nsteps -> 0 <= nw -> 0 <= nd ->
  sample s p0 thin = Err e ->
  snd (run_mcmc s p0 nsteps thin) = Raises e /\
  allocations (fst (run_mcmc s p0 nsteps thin)) = 3%nat /\
  pulls (fst (run_mcmc s p0 nsteps thin)) = O /\
  pbar_left_open (fst (run_mcmc s p0 nsteps thin)) = true.
Proof.
  intros Hb Hw Hd H1 H2 H3 Hs.
  rewrite (sample_call_fault_propagates s p0 nsteps thin e b nw nd
             Hb Hw Hd H1 H2 H3 Hs).
  repeat split.
Qed.

Section MoreRuns.

Variables (s : Sampler) (p0 : ndarray) (nsteps thin : Z).
Variables (b : ndarray) (nw nd : Z).

Hypothesis Hbetas : betas s = Some b.
Hypothesis Hnwalkers : nwalkers s = Some nw.
Hypothesis Hndim : ndim s = Some nd.
Hypothesis Hnw : 0 <= nw.
Hypothesis Hnd : 0 <= nd.
Hypothesis Hnsteps : 0 <= nsteps.

Variables (g : gen s).
Hypothesis Hsample : sample s p0 thin = Ok g.

(** The iterator has nothing to yield. *)
Lemma run_mcmc_nothing :
  next s g = PStop ->
  run_mcmc s p0 nsteps thin =
  (prelude nsteps (size b) nw nd p0 thin ++ [EvNext Exhausted; EvClose],
   Returns (chain0 nsteps b nw nd, logs0 nsteps b nw, logs0 nsteps b nw)).
Proof.
  intros Hstop.
  rewrite (run_mcmc_from_loop s p0 nsteps thin b nw nd Hbetas Hnwalkers Hndim
             Hnw Hnd Hnsteps g Hsample), for_loop_S, Hstop.
  reflexivity.
Qed.

(** After results of the declared shapes, fewer than [nsteps], comes a
    result that the loop cannot store. *)
Lemma run_mcmc_store_fails (g1 g2 : gen s) (rs : list StepResult)
    (r : StepResult) (e : exn) :
  Forall (conforms (size b) nw nd) rs ->
  yields (next s) g rs g1 -> next s g1 = PYield r g2 ->
  Z.of_nat (length rs) < nsteps ->
  store (Z.of_nat (length rs)) r
    (fill x rs 0 (chain0 nsteps b nw nd),
     fill logl rs 0 (logs0 nsteps b nw),
     fill logP rs 0 (logs0 nsteps b nw)) = Err e ->
  run_mcmc s p0 nsteps thin =
  (prelude nsteps (size b) nw nd p0 thin ++ stored rs ++ [EvNext (Yielded r)],
   Raises e).
Proof.
  intros Hconf Hy Hn Hlt Hst.
  rewrite (run_mcmc_from_loop s p0 nsteps thin b nw nd Hbetas Hnwalkers Hndim
             Hnw Hnd Hnsteps g Hsample).
  replace (S (Z.to_nat nsteps))
    with (length rs + S (Z.to_nat nsteps - length rs))%nat by lia.
  destruct (for_loop_conforming (next s) nsteps (size b) nw nd
              Hnsteps (size_nonneg b) Hnw Hnd rs g g1 0
              (chain0 nsteps b nw nd) (logs0 nsteps b nw) (logs0 nsteps b nw)
              (S (Z.to_nat nsteps - length rs)) Hy Hconf
              (slots_ok_zeros nsteps b nw nd Hnw Hnd Hnsteps))
    as [E _]; [lia|lia|].
  rewrite E, for_loop_S, Hn. simpl Z.to_nat. simpl Z.add.
  rewrite Hst. reflexivity.
Qed.

End MoreRuns.

Lemma setitem_mismatch (a : ndarray) (n : nat) (sub : list nat) (index : Z)
    (v : ndarray) :
  shape a = n :: sub -> 0 <= index < Z.of_nat n ->
  length (shape v) = length sub -> Forall (fun t => (0 < t)%nat) sub ->
  mismatch (shape v) sub = true ->
  setitem a index v = Err (ValueError "could not broadcast input array").
Proof.
  intros Hs Hi Hlen Hpos Hm. unfold setitem. rewrite Hs.
  replace (_ || _) with false
    by (symmetry; apply orb_false_iff; split; lia).
  rewrite broadcast_to_mismatch by assumption. reflexivity.
Qed.

(** X6: when, after fewer than [nsteps] results of the declared
    shapes, the iterator yields a result whose [x] has three axes and,
    along one of them, an extent that is neither the extent of the slot
    nor 1 (no extent of the slot being 0), [run_mcmc] raises the
    [ValueError] of the assignment [chain[index, :, :, :] = result.x]
    right after taking that result, and returns nothing. *)
Theorem misshapen_result_raises (s : Sampler) (p0 : ndarray) (nsteps thin : Z)
    (b : ndarray) (nw nd : Z) (g g1 g2 : gen s) (rs : list StepResult)
    (r : StepResult) :
  betas s = Some b -> nwalkers s = Some nw -> ndim s = Some nd ->
  0 < size b -> 0 < nw -> 0 < nd ->
  sample s p0 thin = Ok g ->
  Forall (conforms (size b) nw nd) rs ->
  yields (next s) g rs g1 -> next s g1 = PYield r g2 ->
  Z.of_nat (length rs) < nsteps ->
  length (shape (x r)) = 3%nat ->
  mismatch (shape (x r)) (map Z.to_nat [size b; nw; nd]) = true ->
  run_mcmc s p0 nsteps thin =
  (prelude nsteps (size b) nw nd p0 thin ++ stored rs ++ [EvNext (Yielded r)],
   Raises (ValueError "could not broadcast input array")).
Proof.
  intros Hb Hw Hd Hnt Hnw Hnd Hs Hconf Hy Hn Hlt Hrank Hm.
  assert (H0 : 0 <= nsteps) by lia.
  assert (Hnw' : 0 <= nw) by lia. assert (Hnd' : 0 <= nd) by lia.
  eapply run_mcmc_store_fails; try eassumption.
  destruct (for_loop_conforming (next s) nsteps (size b) nw nd
              H0 (size_nonneg b) Hnw' Hnd' rs g g1 0
              (chain0 nsteps b nw nd) (logs0 nsteps b nw) (logs0 nsteps b nw)
              1%nat Hy Hconf (slots_ok_zeros nsteps b nw nd Hnw' Hnd' H0))
    as [_ Hok]; [lia|lia|].
  destruct (slots_shapes nsteps (size b) nw nd H0 (size_nonneg b) Hnw' Hnd'
              _ _ _ Hok) as (Sc & _ & _).
  simpl Z.to_nat in Sc. unfold store.
  rewrite (setitem_mismatch _ (Z.to_nat nsteps)
             (map Z.to_nat [size b; nw; nd])); auto; try lia.
  simpl. repeat constructor; lia.
Qed.

(** X7: when the iterator of the sampler yields nothing, [run_mcmc]
    calls [next] once and returns the three arrays as [np.zeros] gave
    them, for every [nsteps >= 0]; for [nsteps = 0] these arrays have
    no element. *)
Theorem empty_sequence_returns_zeros (s : Sampler) (p0 : ndarray)
    (nsteps thin : Z) (b : ndarray) (nw nd : Z) (g : gen s) :
  betas s = Some b -> nwalkers s = Some nw -> ndim s = Some nd ->
  0 <= nw -> 0 <= nd -> 0 <= nsteps ->
  sample s p0 thin = Ok g -> next s g = PStop ->
  run_mcmc s p0 nsteps thin =
    (prelude nsteps (size b) nw nd p0 thin ++ [EvNext Exhausted; EvClose],
     Returns (chain0 nsteps b nw nd, logs0 nsteps b nw, logs0 nsteps b nw)) /\
  (nsteps = 0 ->
     data (chain0 nsteps b nw nd) = [] /\ data (logs0 nsteps b nw) = []).
Proof.
  intros Hb Hw Hd Hnw Hnd Hn Hs Hstop. split.
  - eapply run_mcmc_nothing; eassumption.
  - intros ->. split; reflexivity.
Qed.

(** ** The further properties at concrete samplers *)

(** X1 on two steps of a sampler that never ends. *)
Lemma next_called_at_most_nsteps_witness :
  Z.of_nat (pulls (fst (run_mcmc (Stub.stub 2 1 2 Stub.Forever)
                          (Stub.p0 1 2) 2 1))) <= 2 /\
  Z.of_nat (length (yielded (fst (run_mcmc (Stub.stub 2 1 2 Stub.Forever)
                                    (Stub.p0 1 2) 2 1)))) <= 2.
Proof.
  apply (next_called_at_most_nsteps
           (Stub.stub 2 1 2 Stub.Forever) (Stub.p0 1 2) 2 1).
  lia.
Defined.

(** X2 on a sampler that stops after one of the three steps asked
    for: one update, for one result. *)
Lemma progress_counts_results_witness :
  opened (fst (run_mcmc (Stub.stub 2 1 2 (Stub.StopAfter 1))
                 (Stub.p0 1 2) 3 1)) = [3] /\
  updates (fst (run_mcmc (Stub.stub 2 1 2 (Stub.StopAfter 1))
                  (Stub.p0 1 2) 3 1))
  = Z.of_nat (length (yielded (fst (run_mcmc (Stub.stub 2 1 2 (Stub.StopAfter 1))
                                      (Stub.p0 1 2) 3 1)))).
Proof.
  eapply (proj2 (proj2 (progress_counts_results
                          (Stub.stub 2 1 2 (Stub.StopAfter 1))
                          (Stub.p0 1 2) 3 1))).
  vm_compute. reflexivity.
Defined.

(** X3 on three steps of a sampler whose iterator raises an
    [IndexError] in place of its second result. *)
Lemma index_error_only_from_sampler_witness :
  sample (Stub.stub 2 1 2 (Stub.FailAfter 1 (IndexError "in the sampler")))
         (Stub.p0 1 2) 1
    = Err (IndexError "in the sampler") \/
  In (EvNext (Failed (IndexError "in the sampler")))
     (fst (run_mcmc
             (Stub.stub 2 1 2 (Stub.FailAfter 1 (IndexError "in the sampler")))
             (Stub.p0 1 2) 3 1)).
Proof.
  apply (index_error_only_from_sampler
           (Stub.stub 2 1 2 (Stub.FailAfter 1 (IndexError "in the sampler")))
           (Stub.p0 1 2) 3 1 "in the sampler").
  - lia.
  - vm_compute. reflexivity.
Defined.

(** X5 on a sampler whose [sample] raises. *)
Lemma sample_call_fault_leaves_bar_open_witness :
  snd (run_mcmc (Faulty.refusing (Exception "bad start")) (Stub.p0 1 2) 3 1)
    = Raises (Exception "bad start") /\
  allocations
    (fst (run_mcmc (Faulty.refusing (Exception "bad start")) (Stub.p0 1 2) 3 1))
    = 3%nat /\
  pulls
    (fst (run_mcmc (Faulty.refusing (Exception "bad start")) (Stub.p0 1 2) 3 1))
    = O /\
  pbar_left_open
    (fst (run_mcmc (Faulty.refusing (Exception "bad start")) (Stub.p0 1 2) 3 1))
    = true.
Proof.
  apply (sample_call_fault_leaves_bar_open
           (Faulty.refusing (Exception "bad start")) (Stub.p0 1 2) 3 1
           (Exception "bad start") (Stub.full [2%nat] 1%float) 1 2);
    first [reflexivity | lia].
Defined.

(** X6 on a sampler whose first result has an [x] of shape (2, 1, 3)
    for slots of shape (2, 1, 2). *)
Lemma misshapen_result_raises_witness :
  run_mcmc Faulty.wide (Stub.p0 1 2) 2 1 =
  (prelude 2 2 1 2 (Stub.p0 1 2) 1 ++ [EvNext (Yielded Faulty.wide_result)],
   Raises (ValueError "could not broadcast input array")).
Proof.
  apply (misshapen_result_raises Faulty.wide (Stub.p0 1 2) 2 1
           (Stub.full [2%nat] 1%float) 1 2 tt tt tt [] Faulty.wide_result).
  - reflexivity.
  - reflexivity.
  - reflexivity.
  - reflexivity.
  - lia.
  - lia.
  - reflexivity.
  - constructor.
  - constructor.
  - reflexivity.
  - simpl. lia.
  - reflexivity.
  - reflexivity.
Defined.

(** X7 on [nsteps = 0] and a sampler that yields nothing. *)
Lemma empty_sequence_returns_zeros_witness :
  run_mcmc (Stub.stub 2 1 2 (Stub.StopAfter 0)) (Stub.p0 1 2) 0 1 =
    (prelude 0 2 1 2 (Stub.p0 1 2) 1 ++ [EvNext Exhausted; EvClose],
     Returns (mk_ndarray [0; 2; 1; 2]%nat [],
              mk_ndarray [0; 2; 1]%nat [],
              mk_ndarray [0; 2; 1]%nat [])) /\
  (0 = 0 ->
     data (chain0 0 (Stub.full [2%nat] 1%float) 1 2) = [] /\
     data (logs0 0 (Stub.full [2%nat] 1%float) 1) = []).
Proof.
  apply (empty_sequence_returns_zeros
           (Stub.stub 2 1 2 (Stub.StopAfter 0)) (Stub.p0 1 2) 0 1
           (Stub.full [2%nat] 1%float) 1 2 0%nat);
    first [reflexivity | lia].
Defined.
